(** * Telegram AI chatbot: registration state machine and interaction handlers

    A shallow embedding of [chatbot.py].  The program is a set of handlers
    over three collaborators: a MongoDB database (four collections), the
    Telegram transport, and the Gemini backend.  Documents are Python dicts
    and are modelled as finite maps from field names to values; a collection
    is the list of its documents in insertion order; the module-level
    [user_cache] dict is a finite map from chat identities to whatever
    [find_one] returned.  Handlers run in a small monad that threads the
    program state, records every call made to a collaborator, and propagates
    Python exceptions. *)

From Stdlib Require Import ZArith.
From Stdlib.Strings Require Import Ascii String Byte.
From stdpp Require Import base option list gmap strings.

Local Open Scope string_scope.
Local Open Scope Z_scope.
Local Open Scope list_scope.

(** ** Documents *)

(** Values stored in a document field.  [VTime] is a [datetime] (a clock
    reading), [VNone] is Python's [None]. *)
Inductive value : Type :=
  | VNone
  | VInt (n : Z)
  | VStr (s : string)
  | VTime (t : Z).

#[global] Instance value_eq_dec : EqDecision value.
Proof. solve_decision. Defined.

Abbreviation doc := (gmap string value).

Inductive collection : Type := Users | ChatHistory | Files | Searches.

#[global] Instance collection_eq_dec : EqDecision collection.
Proof. solve_decision. Defined.

(** ** Telegram objects *)

(** [update.effective_user]. *)
Record User : Type := mkUser {
  user_id : Z;
  first_name : string;
  username : option string
}.

(** [update.effective_message.contact]; [user_id] is optional on Telegram's
    side (a shared contact need not be a Telegram user). *)
Record Contact : Type := mkContact {
  contact_user_id : option Z;
  phone_number : string
}.

(** The attachment part of a message: [photo] lists the [file_id] of every
    available size (empty when the message has no photo), [document] is the
    [file_id] of the attached document if any. *)
Record Attachment : Type := mkAttachment {
  photo : list string;
  document : option string
}.

(** ** Backend results *)

Record Part : Type := mkPart { text : string }.
Record Content : Type := mkContent { parts : list Part }.
Record Candidate : Type := mkCandidate { content : Content }.
Record Response : Type := mkResponse { candidates : list Candidate }.

Inductive model : Type :=
  | nlp_model      (* 'gemini-pro' *)
  | vision_model.  (* 'gemini-1.5-flash' *)

(** ** Exceptions and outcomes *)

Inductive exn : Type :=
  | DuplicateKeyError
  | TypeError (msg : string)
  | Failure (msg : string).

(** [str(e)] as used by the f-strings of the [except] clauses (the text of
    pymongo's duplicate-key message is abridged). *)
Definition str (e : exn) : string :=
  match e with
  | DuplicateKeyError => "duplicate key error"
  | TypeError msg => msg
  | Failure msg => msg
  end.

Inductive outcome (A : Type) : Type :=
  | Return (a : A)
  | Raise (e : exn).
Arguments Return {A} a.
Arguments Raise {A} e.

(** ** Calls made to the collaborators, in program order *)

Inductive effect : Type :=
  | ReplyText (msg : string)
      (* update.message.reply_text(msg) *)
  | ReplyContactButton (msg : string) (button : string)
      (* reply_text(msg, reply_markup=[[InlineKeyboardButton(button, request_contact=True)]]) *)
  | LogReceivedContact (c : Contact)
      (* logger.info(f"Received contact: {contact}") *)
  | LogError (msg : string)
      (* logger.error(msg) *)
  | FindOne (c : collection) (chat_id : Z)
  | InsertOne (c : collection) (d : doc)
  | UpdateOne (c : collection) (chat_id : Z) (fields : doc)
  | GenerateContent (m : model) (prompt : string)
      (attachment : option (string * list byte))
  | GetFile (file_id : string)
  | Sleep (seconds : Z)
  | Unhandled (e : exn).
      (* an exception left the handler and reached the dispatcher *)

(** ** Program state *)

Record state : Type := mkState {
  users : list doc;
  chat_history : list doc;
  files : list doc;
  searches : list doc;
  user_cache : gmap Z (option doc)
}.

(** The state of a freshly started process on an empty database. *)
Definition initial_state : state :=
  {| users := []; chat_history := []; files := []; searches := [];
     user_cache := ∅ |}.

Definition get_collection (c : collection) (s : state) : list doc :=
  match c with
  | Users => users s
  | ChatHistory => chat_history s
  | Files => files s
  | Searches => searches s
  end.

Definition set_collection (c : collection) (l : list doc) (s : state) : state :=
  match c with
  | Users =>
      {| users := l; chat_history := chat_history s; files := files s;
         searches := searches s; user_cache := user_cache s |}
  | ChatHistory =>
      {| users := users s; chat_history := l; files := files s;
         searches := searches s; user_cache := user_cache s |}
  | Files =>
      {| users := users s; chat_history := chat_history s; files := l;
         searches := searches s; user_cache := user_cache s |}
  | Searches =>
      {| users := users s; chat_history := chat_history s; files := files s;
         searches := l; user_cache := user_cache s |}
  end.

Definition set_user_cache (k : Z) (v : option doc) (s : state) : state :=
  {| users := users s; chat_history := chat_history s; files := files s;
     searches := searches s; user_cache := <[k := v]> (user_cache s) |}.

(** ** The document store (pymongo) *)

(** The filter [{"chat_id": q}]. *)
Definition matches (q : Z) (d : doc) : bool :=
  bool_decide (d !! "chat_id" = Some (VInt q)).

(** [coll.find_one({"chat_id": q})]: the first matching document. *)
Fixpoint find_one (q : Z) (coll : list doc) : option doc :=
  match coll with
  | [] => None
  | d :: rest => if matches q d then Some d else find_one q rest
  end.

(** [coll.update_one({"chat_id": q}, {"$set": fields})]: the first matching
    document gets [fields] written over it.  The second component is
    [modified_count]: 1 when a document matched and was actually changed,
    0 when none matched or the write left the document as it was. *)
Fixpoint update_one (q : Z) (fields : doc) (coll : list doc) : list doc * Z :=
  match coll with
  | [] => ([], 0)
  | d :: rest =>
      if matches q d then
        (fields ∪ d :: rest, if decide (fields ∪ d = d) then 0 else 1)
      else
        let '(rest', n) := update_one q fields rest in (d :: rest', n)
  end.

(** [db.users.create_index("chat_id", unique=True)]: an insert into [users]
    is refused when a stored document has the same value for [chat_id]
    (a missing field counts as one value).  The other three indexes are not
    unique. *)
Definition violates_index (c : collection) (d : doc) (coll : list doc) : bool :=
  match c with
  | Users => bool_decide (Exists (λ d', d' !! "chat_id" = d !! "chat_id") coll)
  | _ => false
  end.
Arguments violates_index : simpl never.

(** ** The handler monad *)

(** The store and the transport are taken to answer every call: lookups,
    updates, inserts that respect the unique index and [reply_text] return.
    The failures that are modelled are the ones an update carries with it
    (the backend call, the download), a violation of the unique index, and
    the constructor call of [request_contact]. *)

Definition M (A : Type) : Type := state → outcome A * state * list effect.

#[global] Instance M_ret : MRet M := λ A a s, (Return a, s, []).

#[global] Instance M_bind : MBind M := λ A B f m s,
  match m s with
  | (Return a, s1, t1) => let '(o, s2, t2) := f a s1 in (o, s2, t1 ++ t2)
  | (Raise e, s1, t1) => (Raise e, s1, t1)
  end.

Definition emit (e : effect) : M unit := λ s, (Return (), s, [e]).

Definition raise {A : Type} (e : exn) : M A := λ s, (Raise e, s, []).

(** [try: body except Exception as e: handler e]. *)
Definition try_except {A : Type} (body : M A) (handler : exn → M A) : M A :=
  λ s,
    match body s with
    | (Return a, s1, t1) => (Return a, s1, t1)
    | (Raise e, s1, t1) => let '(o, s2, t2) := handler e s1 in (o, s2, t1 ++ t2)
    end.

(** The answer of a collaborator that may fail, delivered to the handler. *)
Definition await {A : Type} (answer : outcome A) : M A := λ s, (answer, s, []).

Definition db_find_one (q : Z) : M (option doc) := λ s,
  (Return (find_one q (users s)), s, [FindOne Users q]).

Definition db_insert_one (c : collection) (d : doc) : M unit := λ s,
  if violates_index c d (get_collection c s) then
    (Raise DuplicateKeyError, s, [InsertOne c d])
  else
    (Return (), set_collection c (get_collection c s ++ [d]) s, [InsertOne c d]).

Definition db_update_one (q : Z) (fields : doc) : M Z := λ s,
  let '(coll, modified_count) := update_one q fields (users s) in
  (Return modified_count, set_collection Users coll s, [UpdateOne Users q fields]).

Definition cache_contains (k : Z) : M bool := λ s,
  (Return (bool_decide (is_Some (user_cache s !! k))), s, []).

Definition cache_store (k : Z) (v : option doc) : M unit := λ s,
  (Return (), set_user_cache k v s, []).

Definition reply_text (msg : string) : M unit := emit (ReplyText msg).

Definition generate_content (m : model) (prompt : string)
    (attachment : option (string * list byte)) (answer : outcome Response)
    : M Response :=
  emit (GenerateContent m prompt attachment) ;; await answer.

(** ** Texts *)

(** The newline character of the Python literals. *)
Definition nl : string := String "010"%char EmptyString.

Definition welcome_back (user : User) : string :=
  "Welcome back " +:+ first_name user +:+ "! Your registration is complete.".

Definition complete_registration : string :=
  "Please complete registration by sharing your contact".

Definition verification_required : string :=
  "📱 Verification Required" +:+ nl +:+
  "To use this bot, please share your phone number for security:".

Definition own_contact_only : string :=
  "⚠️ Please only share your own contact information.".

Definition verification_successful : string :=
  "✅ Phone verification successful!" +:+ nl +:+
  "You can now access all bot features.".

Definition verification_failed : string :=
  "❌ Verification failed. Please try /start again".

Definition sorry : string :=
  "❌ Sorry, I couldn't process your request. Please try again.".

Definition follow_up : string :=
  "Is there anything else I can help you with? 😊".

Definition unsupported_file_type : string := "❌ Unsupported file type".

Definition failed_to_analyze : string := "❌ Failed to analyze file".

Definition websearch_usage : string := "Usage: /websearch <your query here>".

Definition placeholder : string := "No candidates returned.".

(** ** Registration: [start], [request_contact], [handle_contact] *)

(** What [InlineKeyboardButton(label, request_contact=True)] raises. *)
Definition unexpected_request_contact : exn :=
  TypeError
    "InlineKeyboardButton.__init__() got an unexpected keyword argument 'request_contact'".

(** [InlineKeyboardButton(label, request_contact=True)].  The names the
    program imports ([ApplicationBuilder], [ContextTypes], [filters]) exist
    from python-telegram-bot 20 on, and there the constructor of
    [InlineKeyboardButton] has no [request_contact] parameter (it is one of
    [KeyboardButton]) and takes no other keywords: the call raises
    [TypeError] and no button is built. *)
Definition InlineKeyboardButton_request_contact (label : string) : M string :=
  raise unexpected_request_contact.

(** The keyboard is built first, the reply comes after. *)
Definition request_contact : M unit :=
  button ← InlineKeyboardButton_request_contact "Verify Phone Number";
  emit (ReplyContactButton verification_required button).

(** The document inserted by [start] for a new user.  (The [_id] the store
    adds on insertion is left out: no handler reads it.) *)
Definition new_user (user : User) (now1 now2 : Z) : doc :=
  {[ "first_name" := VStr (first_name user);
     "username" := from_option VStr VNone (username user);
     "chat_id" := VInt (user_id user);
     "status" := VStr "pending_contact";
     "registered_at" := VTime now1;
     "last_interaction" := VTime now2 ]}.

(** [existing_user.get("status", "new")]. *)
Definition status_of (d : doc) : value := default (VStr "new") (d !! "status").

(** [now1] and [now2] are the two readings of [datetime.now()].  Python's
    [not existing_user] holds for [None] and for an empty dict. *)
Definition start (user : User) (now1 now2 : Z) : M unit :=
  cached ← cache_contains (user_id user);
  if (cached : bool) then
    reply_text (welcome_back user)
  else
    existing_user ← db_find_one (user_id user);
    let register : M unit :=
      db_insert_one Users (new_user user now1 now2) ;;
      request_contact in
    match existing_user with
    | None => register
    | Some d =>
        if decide (d = ∅) then register
        else
          let status := status_of d in
          if decide (status = VStr "pending_contact") then
            reply_text complete_registration
          else
            cache_store (user_id user) existing_user ;;
            reply_text (welcome_back user)
    end.

(** The [$set] document of [handle_contact]. *)
Definition verified_fields (contact : Contact) (now : Z) : doc :=
  {[ "phone_number" := VStr (phone_number contact);
     "status" := VStr "verified";
     "phone_verified_at" := VTime now ]}.

(** [contact.user_id != update.effective_user.id] also holds when the
    contact carries no user identity ([None]). *)
Definition handle_contact (user : User) (contact : Contact) (now : Z) : M unit :=
  emit (LogReceivedContact contact) ;;
  let reject : M unit := reply_text own_contact_only in
  match contact_user_id contact with
  | None => reject
  | Some cid =>
      if decide (cid ≠ user_id user) then reject
      else
        modified_count ← db_update_one cid (verified_fields contact now);
        if decide (modified_count = 1) then
          found ← db_find_one cid;
          cache_store cid found ;;
          reply_text verification_successful
        else
          reply_text verification_failed
  end.

(** ** Response extraction *)

Definition extract_text_from_candidates (response : Response) : string :=
  match candidates response with
  | [] => placeholder
  | first :: _ =>
      let text_parts :=
        fold_left (λ acc part, acc ++ [text part]) (parts (content first)) [] in
      String.concat EmptyString text_parts
  end.

(** ** Text messages *)

(** The f-string prompt of [generate_and_send_response]. *)
Definition message_prompt (user_message : string) : string :=
  "Respond to this message with a helpful and friendly tone, and include relevant emojis: "
  +:+ user_message.

(** The document appended to [chat_history]. *)
Definition chat_exchange (uid : Z) (user_message gemini_response : string)
    (now : Z) : doc :=
  {[ "user_id" := VInt uid;
     "input" := VStr user_message;
     "response" := VStr gemini_response;
     "timestamp" := VTime now ]}.

Definition generate_and_send_response (uid : Z) (user_message : string)
    (answer : outcome Response) (now : Z) : M unit :=
  try_except
    (let prompt := message_prompt user_message in
     raw_response ← generate_content nlp_model prompt None answer;
     let gemini_response := extract_text_from_candidates raw_response in
     db_insert_one ChatHistory
       (chat_exchange uid user_message gemini_response now) ;;
     reply_text gemini_response ;;
     emit (Sleep 5) ;;
     reply_text follow_up)
    (λ e,
       emit (LogError ("Error generating response: " +:+ str e)) ;;
       reply_text sorry).

(** [asyncio.create_task] detaches the coroutine; the model runs it to
    completion as part of the event that created it. *)
Definition handle_message (user : User) (user_message : string)
    (answer : outcome Response) (now : Z) : M unit :=
  generate_and_send_response (user_id user) user_message answer now.

(** ** Attachments *)

(** [s.split(sep)]. *)
Fixpoint split (sep : ascii) (s : string) : list string :=
  match s with
  | EmptyString => [EmptyString]
  | String c rest =>
      if Ascii.eqb c sep then EmptyString :: split sep rest
      else
        match split sep rest with
        | [] => [String c EmptyString]
        | w :: ws => String c w :: ws
        end
  end.

(** [s.split('/')[-1]], which is also [os.path.basename s]. *)
Definition last_segment (s : string) : string :=
  default EmptyString (last (split "/"%char s)).

(** [mime_type or 'application/octet-stream']. *)
Definition or_octet_stream (guessed : option string) : string :=
  match guessed with
  | Some m => if decide (m = EmptyString) then "application/octet-stream" else m
  | None => "application/octet-stream"
  end.

Definition analysis_prompt : string :=
  "Analyze and describe this content in detail:".

(** The document appended to [files]. *)
Definition file_analysis (uid : Z) (file_path mime_type analysis : string)
    (now : Z) : doc :=
  {[ "user_id" := VInt uid;
     "filename" := VStr (last_segment file_path);
     "file_type" := VStr (last_segment mime_type);
     "analysis" := VStr analysis;
     "timestamp" := VTime now ]}.

Definition analysis_result (analysis : string) : string :=
  "🔍 Analysis Result:" +:+ nl +:+ analysis.

(** [fetched] is what [get_file], [download_to_drive] and reading the file
    give: the path and the bytes, or the exception one of them raised.
    [guessed] is the first component of [mimetypes.guess_type(file_path)]. *)
Definition handle_files (user : User) (message : Attachment)
    (fetched : outcome (string * list byte)) (guessed : option string)
    (answer : outcome Response) (now : Z) : M unit :=
  try_except
    (let analyse (file_id : string) : M unit :=
       emit (GetFile file_id) ;;
       '(file_path, file_data) ← await fetched;
       let mime_type := or_octet_stream guessed in
       let prompt := analysis_prompt in
       response ←
         generate_content vision_model prompt (Some (mime_type, file_data)) answer;
       let analysis := extract_text_from_candidates response in
       db_insert_one Files
         (file_analysis (user_id user) file_path mime_type analysis now) ;;
       reply_text (analysis_result analysis) in
     match last (photo message) with
     | Some file_id => analyse file_id
     | None =>
         match document message with
         | Some file_id => analyse file_id
         | None => reply_text unsupported_file_type
         end
     end)
    (λ e,
       emit (LogError ("File processing error: " +:+ str e)) ;;
       reply_text failed_to_analyze).

(** ** Search *)

(** The f-string prompt of [handle_websearch]. *)
Definition web_search_prompt (query : string) : string :=
  "Simulate a web search for: " +:+ query
  +:+ " and provide a concise summary with top links.".

(** The document appended to [searches]. *)
Definition search_record (uid : Z) (query gemini_response : string)
    (now : Z) : doc :=
  {[ "user_id" := VInt uid;
     "query" := VStr query;
     "result" := VStr gemini_response;
     "timestamp" := VTime now ]}.

Definition search_results (gemini_response : string) : string :=
  "🌐 Search Results:" +:+ nl +:+ gemini_response.

Definition handle_websearch (user : User) (args : list string)
    (answer : outcome Response) (now : Z) : M unit :=
  let query := String.concat " " args in
  if decide (query = EmptyString) then
    reply_text websearch_usage
  else
    raw_response ←
      generate_content nlp_model (web_search_prompt query) None answer;
    let gemini_response := extract_text_from_candidates raw_response in
    db_insert_one Searches
      (search_record (user_id user) query gemini_response now) ;;
    reply_text (search_results gemini_response).

(** ** Dispatch ([main]) *)

(** An inbound update together with what the collaborators answer while it
    is handled. *)
Inductive event : Type :=
  | Start (user : User) (now1 now2 : Z)
  | ContactShared (user : User) (contact : Contact) (now : Z)
  | TextMessage (user : User) (user_message : string)
      (answer : outcome Response) (now : Z)
  | FileMessage (user : User) (message : Attachment)
      (fetched : outcome (string * list byte)) (guessed : option string)
      (answer : outcome Response) (now : Z)
  | Websearch (user : User) (args : list string)
      (answer : outcome Response) (now : Z).

Definition handler (ev : event) : M unit :=
  match ev with
  | Start user now1 now2 => start user now1 now2
  | ContactShared user contact now => handle_contact user contact now
  | TextMessage user user_message answer now =>
      handle_message user user_message answer now
  | FileMessage user message fetched guessed answer now =>
      handle_files user message fetched guessed answer now
  | Websearch user args answer now => handle_websearch user args answer now
  end.

(** One update: the handler runs; an exception it lets through is caught by
    the dispatcher. *)
Definition step (ev : event) (s : state) : state * list effect :=
  match handler ev s with
  | (Return _, s', t) => (s', t)
  | (Raise e, s', t) => (s', t ++ [Unhandled e])
  end.

(** Updates delivered one after the other. *)
Fixpoint run (evs : list event) (s : state) : state * list effect :=
  match evs with
  | [] => (s, [])
  | ev :: rest =>
      let '(s1, t1) := step ev s in
      let '(s2, t2) := run rest s1 in
      (s2, t1 ++ t2)
  end.

Definition final (evs : list event) (s : state) : state := (run evs s).1.

(** * Vocabulary of the properties *)

(** The two statuses this program writes. *)
Definition registered (d : doc) : Prop :=
  d !! "status" = Some (VStr "pending_contact")
  ∨ d !! "status" = Some (VStr "verified").

(** Every cache entry is the stored record of its identity, and that
    record is verified. *)
Definition cache_sound (s : state) : Prop :=
  ∀ (k : Z) (v : option doc),
    user_cache s !! k = Some v →
    ∃ d, v = Some d
         ∧ find_one k (users s) = Some d
         ∧ d !! "status" = Some (VStr "verified").

(** The unique index on [chat_id] holds. *)
Definition unique_chat_ids (coll : list doc) : Prop :=
  NoDup ((λ d, d !! "chat_id") <$> coll).

(** The number of records stored for one chat identity. *)
Definition records_of (k : Z) (coll : list doc) : nat :=
  length (filter (λ d, d !! "chat_id" = Some (VInt k)) coll).

(** A process that has just started: [user_cache = {}], over a database
    that holds what earlier runs of this program left there. *)
Record boot (s : state) : Prop := {
  boot_cache : user_cache s = ∅;
  boot_registered : Forall registered (users s);
  boot_unique : unique_chat_ids (users s)
}.

(** The process stops and starts again: the database stays, the module-level
    cache is empty again. *)
Definition restart (s : state) : state :=
  {| users := users s; chat_history := chat_history s; files := files s;
     searches := searches s; user_cache := ∅ |}.

(** What every run from a boot state keeps true. *)
Record consistent (s : state) : Prop := {
  consistent_cache : cache_sound s;
  consistent_registered : Forall registered (users s);
  consistent_unique : unique_chat_ids (users s)
}.

Definition is_contact_share (ev : event) : bool :=
  match ev with
  | ContactShared _ _ _ => true
  | _ => false
  end.

(** Text, file and search updates. *)
Definition conversational (ev : event) : bool :=
  match ev with
  | TextMessage _ _ _ _ | FileMessage _ _ _ _ _ _ | Websearch _ _ _ _ => true
  | Start _ _ _ | ContactShared _ _ _ => false
  end.

(** Two states that differ at most in [users] and in the cache. *)
Definition same_conversations (s1 s2 : state) : Prop :=
  chat_history s1 = chat_history s2
  ∧ files s1 = files s2
  ∧ searches s1 = searches s2.

Definition raised {A : Type} (o : outcome A) : bool :=
  match o with
  | Raise _ => true
  | Return _ => false
  end.

(** Neither a photo nor a document. *)
Definition unsupported (message : Attachment) : bool :=
  match last (photo message), document message with
  | None, None => true
  | _, _ => false
  end.

(** The [file_id] that [handle_files] fetches. *)
Definition attached_file (message : Attachment) : option string :=
  match last (photo message) with
  | Some file_id => Some file_id
  | None => document message
  end.

(** The interactions that fail: the backend or the download raises, the
    attachment is of no supported kind, the search query is empty. *)
Definition fails (ev : event) : bool :=
  match ev with
  | TextMessage _ _ answer _ => raised answer
  | FileMessage _ message fetched _ answer _ =>
      unsupported message || raised fetched || raised answer
  | Websearch _ args answer _ =>
      bool_decide (String.concat " " args = EmptyString) || raised answer
  | Start _ _ _ | ContactShared _ _ _ => false
  end.

(** ASCII whitespace, as [str.isspace] has it. *)
Definition whitespace (c : ascii) : bool :=
  let n := nat_of_ascii c in
  (Nat.eqb n 32 || (Nat.leb 9 n && Nat.leb n 13)
   || (Nat.leb 28 n && Nat.leb n 31))%bool.

(** Every character is whitespace; true of the empty string. *)
Fixpoint whitespace_only (s : string) : bool :=
  match s with
  | EmptyString => true
  | String c rest => whitespace c && whitespace_only rest
  end.

(** An argument as whitespace-splitting a command text produces it:
    not empty and free of whitespace. *)
Fixpoint no_whitespace (s : string) : bool :=
  match s with
  | EmptyString => true
  | String c rest => negb (whitespace c) && no_whitespace rest
  end.

Definition token (s : string) : Prop :=
  s ≠ EmptyString ∧ no_whitespace s = true.

(** [text.split()]: the maximal runs of characters that are not
    whitespace; [word] is the run being read. *)
Fixpoint words (text : string) (word : string) : list string :=
  match text with
  | EmptyString => if decide (word = EmptyString) then [] else [word]
  | String c rest =>
      if whitespace c then
        if decide (word = EmptyString) then words rest EmptyString
        else word :: words rest EmptyString
      else words rest (word +:+ String c EmptyString)
  end.

(** [context.args] as [CommandHandler] sets it for a command message:
    [message.text.split()[1:]]. *)
Definition command_args (text : string) : list string :=
  tail (words text EmptyString).

(** The branches an update can take, as far as [users] and the cache are
    concerned. *)
Inductive transition (s : state) : event → state → list effect → Prop :=
  | start_hit user now1 now2 :
      is_Some (user_cache s !! user_id user) →
      transition s (Start user now1 now2) s [ReplyText (welcome_back user)]
  | start_insert user now1 now2 :
      user_cache s !! user_id user = None →
      find_one (user_id user) (users s) = None →
      transition s (Start user now1 now2)
        (set_collection Users (users s ++ [new_user user now1 now2]) s)
        [FindOne Users (user_id user);
         InsertOne Users (new_user user now1 now2);
         Unhandled unexpected_request_contact]
  | start_remind user now1 now2 d :
      user_cache s !! user_id user = None →
      find_one (user_id user) (users s) = Some d →
      status_of d = VStr "pending_contact" →
      transition s (Start user now1 now2) s
        [FindOne Users (user_id user); ReplyText complete_registration]
  | start_welcome user now1 now2 d :
      user_cache s !! user_id user = None →
      find_one (user_id user) (users s) = Some d →
      status_of d ≠ VStr "pending_contact" →
      transition s (Start user now1 now2)
        (set_user_cache (user_id user) (Some d) s)
        [FindOne Users (user_id user); ReplyText (welcome_back user)]
  | contact_reject user contact now :
      contact_user_id contact ≠ Some (user_id user) →
      transition s (ContactShared user contact now) s
        [LogReceivedContact contact; ReplyText own_contact_only]
  | contact_verify user contact now coll :
      contact_user_id contact = Some (user_id user) →
      update_one (user_id user) (verified_fields contact now) (users s)
        = (coll, 1) →
      transition s (ContactShared user contact now)
        (set_user_cache (user_id user) (find_one (user_id user) coll)
           (set_collection Users coll s))
        [LogReceivedContact contact;
         UpdateOne Users (user_id user) (verified_fields contact now);
         FindOne Users (user_id user);
         ReplyText verification_successful]
  | contact_fail user contact now :
      contact_user_id contact = Some (user_id user) →
      (update_one (user_id user) (verified_fields contact now) (users s)).2 ≠ 1 →
      transition s (ContactShared user contact now) s
        [LogReceivedContact contact;
         UpdateOne Users (user_id user) (verified_fields contact now);
         ReplyText verification_failed]
  | conversation ev s' t :
      conversational ev = true →
      users s' = users s →
      user_cache s' = user_cache s →
      transition s ev s' t.

(** The identity has a pending record and no cache entry. *)
Definition awaiting_contact (k : Z) (s : state) : Prop :=
  user_cache s !! k = None
  ∧ ∃ d, find_one k (users s) = Some d ∧ status_of d = VStr "pending_contact".

(** Documents appended to the three interaction collections. *)
Definition add_records (h f q : list doc) (s : state) : state :=
  {| users := users s;
     chat_history := chat_history s ++ h;
     files := files s ++ f;
     searches := searches s ++ q;
     user_cache := user_cache s |}.

(** The user an update comes from. *)
Definition sender (ev : event) : User :=
  match ev with
  | Start user _ _ | ContactShared user _ _ | TextMessage user _ _ _
  | FileMessage user _ _ _ _ _ | Websearch user _ _ _ => user
  end.

(** The one collection the handler of an update works on. *)
Definition home (ev : event) : collection :=
  match ev with
  | Start _ _ _ | ContactShared _ _ _ => Users
  | TextMessage _ _ _ _ => ChatHistory
  | FileMessage _ _ _ _ _ _ => Files
  | Websearch _ _ _ _ => Searches
  end.

(** The interaction that goes through: the backend answers (and, for a
    file, there is an attachment and its download succeeds; for a search,
    the query is not empty). *)
Definition answered (ev : event) : bool :=
  match ev with
  | TextMessage _ _ answer _ => negb (raised answer)
  | FileMessage _ message fetched _ answer _ =>
      negb (unsupported message) && negb (raised fetched)
      && negb (raised answer)
  | Websearch _ args answer _ =>
      negb (bool_decide (String.concat " " args = EmptyString))
      && negb (raised answer)
  | Start _ _ _ | ContactShared _ _ _ => false
  end.

(** The fields [handle_contact] writes. *)
Definition verification_field (field : string) : Prop :=
  field = "phone_number" ∨ field = "status" ∨ field = "phone_verified_at".

(** How the record of an identity may differ between two moments: only in
    the verification fields, a verified status stays, a phone number is never
    taken away. *)
Definition record_evolves (d d' : doc) : Prop :=
  (∀ field : string, ¬ verification_field field → d' !! field = d !! field)
  ∧ (d !! "status" = Some (VStr "verified") →
     d' !! "status" = Some (VStr "verified"))
  ∧ (is_Some (d !! "phone_number") → is_Some (d' !! "phone_number")).

Fixpoint no_slash (s : string) : bool :=
  match s with
  | EmptyString => true
  | String c rest => negb (Ascii.eqb c "/") && no_slash rest
  end.

(** How many of the updates are answered interactions of collection [c]. *)
Definition answered_in (c : collection) (evs : list event) : nat :=
  length (filter (λ ev, home ev = c ∧ answered ev = true) evs).

(** A call to the store that stays within the handler's own collection and,
    when it looks up or updates a record, names the sender's identity. *)
Definition own_store_call (ev : event) (e : effect) : Prop :=
  match e with
  | InsertOne c _ => c = home ev
  | FindOne c k | UpdateOne c k _ =>
      home ev = Users ∧ c = Users ∧ k = user_id (sender ev)
  | _ => True
  end.

(** A call to the backend. *)
Definition is_backend_call (e : effect) : bool :=
  match e with
  | GenerateContent _ _ _ => true
  | _ => false
  end.

(** A backend call as the handlers make them: text alone goes to
    [nlp_model]; an attachment goes to [vision_model], under the fixed
    analysis prompt and with a MIME type that is not empty. *)
Definition well_formed_call (e : effect) : Prop :=
  match e with
  | GenerateContent m prompt None => m = nlp_model
  | GenerateContent m prompt (Some (mime_type, _)) =>
      m = vision_model ∧ prompt = analysis_prompt ∧ mime_type ≠ EmptyString
  | _ => True
  end.

(** ** Sample data *)

Definition alice : User := mkUser 42 "Alice" (Some "alice").

(** Alice shares her own contact. *)
Definition alice_contact : Contact := mkContact (Some 42) "+1555".

(** Alice forwards somebody else's contact. *)
Definition other_contact : Contact := mkContact (Some 7) "+1666".

(** Two candidates of two segments each. *)
Definition two_by_two : Response :=
  mkResponse
    [mkCandidate (mkContent [mkPart "Hello, "; mkPart "world"]);
     mkCandidate (mkContent [mkPart "Good"; mkPart "bye"])].

(** A record left in [users] by some other writer, without a status. *)
Definition legacy_record : doc :=
  {[ "chat_id" := VInt 42; "first_name" := VStr "Alice" ]}.

Definition legacy_state : state :=
  {| users := [legacy_record]; chat_history := []; files := [];
     searches := []; user_cache := ∅ |}.

Definition bob : User := mkUser 7 "Bob" None.

(** Alice has registered and shared her contact. *)
Definition alice_verified : state :=
  final [Start alice 1 2; ContactShared alice alice_contact 5] initial_state.

(** A result without candidates. *)
Definition no_candidates : Response := mkResponse [].

(** * Properties *)

(** ** The document store *)

Section store.
Implicit Types (q : Z) (d fields : doc) (coll : list doc).

Lemma matches_true q d : matches q d = true ↔ d !! "chat_id" = Some (VInt q).
Proof. unfold matches. apply bool_decide_eq_true. Qed.

Lemma matches_false q d : matches q d = false ↔ d !! "chat_id" ≠ Some (VInt q).
Proof. unfold matches. apply bool_decide_eq_false. Qed.

Lemma matches_inj q q' d : matches q d = true → matches q' d = true → q = q'.
Proof. rewrite !matches_true. congruence. Qed.

Lemma matches_union q fields d :
  fields !! "chat_id" = None → matches q (fields ∪ d) = matches q d.
Proof. intros Hf. unfold matches. by rewrite lookup_union_r. Qed.

Lemma find_one_Some q coll d :
  find_one q coll = Some d → d ∈ coll ∧ d !! "chat_id" = Some (VInt q).
Proof.
  induction coll as [|d' rest IH]; simpl; [done|].
  destruct (matches q d') eqn:Hm.
  - intros [= ->]. split; [left | by apply matches_true].
  - intros Hf. destruct (IH Hf). split; [by right | done].
Qed.

Lemma find_one_None q coll :
  find_one q coll = None ↔ Forall (λ d, d !! "chat_id" ≠ Some (VInt q)) coll.
Proof.
  induction coll as [|d' rest IH]; simpl.
  - split; [constructor | done].
  - destruct (matches q d') eqn:Hm.
    + split; [done|]. intros [Hd _]%Forall_cons.
      by apply matches_true in Hm.
    + rewrite Forall_cons, IH. apply matches_false in Hm. tauto.
Qed.

Lemma find_one_snoc q coll d :
  find_one q (coll ++ [d]) =
    match find_one q coll with
    | Some x => Some x
    | None => if matches q d then Some d else None
    end.
Proof.
  induction coll as [|d' rest IH]; simpl; [done|].
  by destruct (matches q d').
Qed.

Lemma update_one_find q fields coll :
  fields !! "chat_id" = None →
  find_one q (update_one q fields coll).1 = (fields ∪.) <$> find_one q coll.
Proof.
  intros Hf. induction coll as [|d rest IH]; simpl; [done|].
  destruct (matches q d) eqn:Hm; simpl.
  - by rewrite matches_union, Hm.
  - destruct (update_one q fields rest) as [rest' n]. simpl in *.
    by rewrite Hm.
Qed.

Lemma update_one_find_ne q q' fields coll :
  fields !! "chat_id" = None → q ≠ q' →
  find_one q' (update_one q fields coll).1 = find_one q' coll.
Proof.
  intros Hf Hq. induction coll as [|d rest IH]; simpl; [done|].
  destruct (matches q d) eqn:Hm; simpl.
  - rewrite matches_union by done.
    destruct (matches q' d) eqn:Hm'; [|done].
    by destruct Hq; eapply matches_inj.
  - destruct (update_one q fields rest) as [rest' n]. simpl in *.
    by rewrite IH.
Qed.

Lemma update_one_count q fields coll :
  (update_one q fields coll).2 = 0 ∨ (update_one q fields coll).2 = 1.
Proof.
  induction coll as [|d rest IH]; simpl; [by left|].
  destruct (matches q d); simpl.
  - case_decide; [by left | by right].
  - by destruct (update_one q fields rest).
Qed.

Lemma update_one_unchanged q fields coll :
  (update_one q fields coll).2 ≠ 1 → (update_one q fields coll).1 = coll.
Proof.
  induction coll as [|d rest IH]; simpl; [done|].
  destruct (matches q d); simpl.
  - case_decide as Heq; [by rewrite Heq | done].
  - destruct (update_one q fields rest) as [rest' n]. simpl in *.
    intros Hn. by rewrite IH.
Qed.

Lemma update_one_modified q fields coll :
  (update_one q fields coll).2 = 1 → is_Some (find_one q coll).
Proof.
  induction coll as [|d rest IH]; simpl; [done|].
  destruct (matches q d); simpl; [by eauto|].
  by destruct (update_one q fields rest).
Qed.

Lemma update_one_chat_ids q fields coll :
  fields !! "chat_id" = None →
  (λ d, d !! "chat_id") <$> (update_one q fields coll).1
  = (λ d, d !! "chat_id") <$> coll.
Proof.
  intros Hf. induction coll as [|d rest IH]; simpl; [done|].
  destruct (matches q d); simpl.
  - by rewrite lookup_union_r.
  - destruct (update_one q fields rest) as [rest' n]. simpl in *.
    by f_equal.
Qed.

Lemma update_one_Forall (P : doc → Prop) q fields coll :
  (∀ d, P d → P (fields ∪ d)) →
  Forall P coll → Forall P (update_one q fields coll).1.
Proof.
  intros HP. induction 1 as [|d rest Hd Hrest IH]; simpl; [done|].
  destruct (matches q d); simpl.
  - constructor; auto.
  - destruct (update_one q fields rest) as [rest' n]. simpl in *.
    by constructor.
Qed.

Lemma violates_index_find_one_None q d coll :
  d !! "chat_id" = Some (VInt q) → find_one q coll = None →
  violates_index Users d coll = false.
Proof.
  intros Hd Hnone. unfold violates_index.
  apply bool_decide_eq_false. rewrite Exists_exists.
  intros (d' & Hin & Heq).
  rewrite find_one_None, Forall_forall in Hnone.
  apply (Hnone d' Hin). congruence.
Qed.
End store.

(** ** What each registration handler does, branch by branch *)

Ltac unfold_M :=
  unfold mbind, mret, M_bind, M_ret, try_except, generate_content, reply_text,
    request_contact, InlineKeyboardButton_request_contact, emit, await, raise,
    cache_contains, cache_store,
    db_find_one, db_insert_one, db_update_one;
  simpl.

Section registration.
Implicit Types (user : User) (contact : Contact) (s : state) (d : doc).

Lemma new_user_chat_id user now1 now2 :
  new_user user now1 now2 !! "chat_id" = Some (VInt (user_id user)).
Proof. unfold new_user. by simplify_map_eq. Qed.

Lemma new_user_status user now1 now2 :
  new_user user now1 now2 !! "status" = Some (VStr "pending_contact").
Proof. unfold new_user. by simplify_map_eq. Qed.

Lemma verified_fields_chat_id contact now :
  verified_fields contact now !! "chat_id" = None.
Proof. unfold verified_fields. by simplify_map_eq. Qed.

Lemma verified_fields_status contact now :
  verified_fields contact now !! "status" = Some (VStr "verified").
Proof. unfold verified_fields. by simplify_map_eq. Qed.

Lemma verified_fields_phone_number contact now :
  verified_fields contact now !! "phone_number"
  = Some (VStr (phone_number contact)).
Proof. unfold verified_fields. by simplify_map_eq. Qed.

Lemma verified_fields_phone_verified_at contact now :
  verified_fields contact now !! "phone_verified_at" = Some (VTime now).
Proof. unfold verified_fields. by simplify_map_eq. Qed.

(** Cache hit: the welcome is sent at once. *)
Lemma start_cached user now1 now2 s :
  is_Some (user_cache s !! user_id user) →
  start user now1 now2 s = (Return (), s, [ReplyText (welcome_back user)]).
Proof.
  intros Hc. unfold start. unfold_M.
  by rewrite bool_decide_eq_true_2.
Qed.

(** No record: one insert, then building the contact button raises. *)
Lemma start_unknown user now1 now2 s :
  user_cache s !! user_id user = None →
  find_one (user_id user) (users s) = None →
  start user now1 now2 s =
    (Raise unexpected_request_contact,
     set_collection Users (users s ++ [new_user user now1 now2]) s,
     [FindOne Users (user_id user);
      InsertOne Users (new_user user now1 now2)]).
Proof.
  intros Hc Hf. unfold start. unfold_M.
  rewrite bool_decide_eq_false_2 by (rewrite Hc; by intros [? ?]).
  rewrite Hf.
  rewrite (violates_index_find_one_None (user_id user))
    by auto using new_user_chat_id.
  done.
Qed.

(** A pending record: a reminder, nothing else. *)
Lemma start_pending user now1 now2 s d :
  user_cache s !! user_id user = None →
  find_one (user_id user) (users s) = Some d →
  status_of d = VStr "pending_contact" →
  start user now1 now2 s =
    (Return (), s,
     [FindOne Users (user_id user); ReplyText complete_registration]).
Proof.
  intros Hc Hf Hst. unfold start. unfold_M.
  rewrite bool_decide_eq_false_2 by (rewrite Hc; by intros [? ?]).
  rewrite Hf. apply find_one_Some in Hf as [_ Hid].
  rewrite decide_False by (intros ->; by rewrite lookup_empty in Hid).
  by rewrite decide_True.
Qed.

(** A record with any other status: cached and welcomed. *)
Lemma start_complete user now1 now2 s d :
  user_cache s !! user_id user = None →
  find_one (user_id user) (users s) = Some d →
  status_of d ≠ VStr "pending_contact" →
  start user now1 now2 s =
    (Return (), set_user_cache (user_id user) (Some d) s,
     [FindOne Users (user_id user); ReplyText (welcome_back user)]).
Proof.
  intros Hc Hf Hst. unfold start. unfold_M.
  rewrite bool_decide_eq_false_2 by (rewrite Hc; by intros [? ?]).
  rewrite Hf. apply find_one_Some in Hf as [_ Hid].
  rewrite decide_False by (intros ->; by rewrite lookup_empty in Hid).
  by rewrite decide_False.
Qed.

(** The contact is not the sender's. *)
Lemma handle_contact_mismatch user contact now s :
  contact_user_id contact ≠ Some (user_id user) →
  handle_contact user contact now s =
    (Return (), s, [LogReceivedContact contact; ReplyText own_contact_only]).
Proof.
  intros Hne. unfold handle_contact. unfold_M.
  destruct (contact_user_id contact) as [cid|]; [|done].
  rewrite decide_True; [done | congruence].
Qed.

(** The contact is the sender's and one record was modified. *)
Lemma handle_contact_success user contact now s :
  contact_user_id contact = Some (user_id user) →
  (update_one (user_id user) (verified_fields contact now) (users s)).2 = 1 →
  let coll :=
    (update_one (user_id user) (verified_fields contact now) (users s)).1 in
  handle_contact user contact now s =
    (Return (),
     set_user_cache (user_id user) (find_one (user_id user) coll)
       (set_collection Users coll s),
     [LogReceivedContact contact;
      UpdateOne Users (user_id user) (verified_fields contact now);
      FindOne Users (user_id user);
      ReplyText verification_successful]).
Proof.
  intros Hid Hn. unfold handle_contact. unfold_M. rewrite Hid.
  rewrite decide_False by (by intros []).
  destruct (update_one _ _ _) as [coll n]. simpl in *.
  by rewrite decide_True.
Qed.

(** The contact is the sender's but no record was modified. *)
Lemma handle_contact_failure user contact now s :
  contact_user_id contact = Some (user_id user) →
  (update_one (user_id user) (verified_fields contact now) (users s)).2 ≠ 1 →
  handle_contact user contact now s =
    (Return (), s,
     [LogReceivedContact contact;
      UpdateOne Users (user_id user) (verified_fields contact now);
      ReplyText verification_failed]).
Proof.
  intros Hid Hn. unfold handle_contact. unfold_M. rewrite Hid.
  rewrite decide_False by (by intros []).
  pose proof (update_one_unchanged _ _ _ Hn) as Hsame.
  destruct (update_one _ _ _) as [coll n]. simpl in *.
  rewrite decide_False by done. subst coll.
  by destruct s.
Qed.
End registration.

(** ** What each interaction handler does, branch by branch *)

Section conversation.
Implicit Types (user : User) (s : state) (e : exn) (response : Response).

Lemma unsupported_attached_file message :
  unsupported message = true ↔ attached_file message = None.
Proof.
  unfold unsupported, attached_file.
  destruct (last (photo message)), (document message); naive_solver.
Qed.

Lemma handle_message_ok user user_message response now s :
  handle_message user user_message (Return response) now s =
    (Return (),
     set_collection ChatHistory
       (chat_history s
        ++ [chat_exchange (user_id user) user_message
              (extract_text_from_candidates response) now]) s,
     [GenerateContent nlp_model (message_prompt user_message) None;
      InsertOne ChatHistory
        (chat_exchange (user_id user) user_message
           (extract_text_from_candidates response) now);
      ReplyText (extract_text_from_candidates response);
      Sleep 5;
      ReplyText follow_up]).
Proof. reflexivity. Qed.

Lemma handle_message_error user user_message e now s :
  handle_message user user_message (Raise e) now s =
    (Return (), s,
     [GenerateContent nlp_model (message_prompt user_message) None;
      LogError ("Error generating response: " +:+ str e);
      ReplyText sorry]).
Proof. reflexivity. Qed.

Lemma handle_files_unsupported user message fetched guessed answer now s :
  attached_file message = None →
  handle_files user message fetched guessed answer now s =
    (Return (), s, [ReplyText unsupported_file_type]).
Proof.
  unfold attached_file, handle_files. unfold_M.
  destruct (last (photo message)); [done|]. by intros ->.
Qed.

Lemma handle_files_fetch_error user message file_id e guessed answer now s :
  attached_file message = Some file_id →
  handle_files user message (Raise e) guessed answer now s =
    (Return (), s,
     [GetFile file_id;
      LogError ("File processing error: " +:+ str e);
      ReplyText failed_to_analyze]).
Proof.
  unfold attached_file, handle_files. unfold_M.
  destruct (last (photo message)); [by intros [= ->]|]. by intros ->.
Qed.

Lemma handle_files_backend_error user message file_id file_path file_data
    e guessed now s :
  attached_file message = Some file_id →
  handle_files user message (Return (file_path, file_data)) guessed (Raise e)
    now s =
    (Return (), s,
     [GetFile file_id;
      GenerateContent vision_model analysis_prompt
        (Some (or_octet_stream guessed, file_data));
      LogError ("File processing error: " +:+ str e);
      ReplyText failed_to_analyze]).
Proof.
  unfold attached_file, handle_files. unfold_M.
  destruct (last (photo message)); [by intros [= ->]|]. by intros ->.
Qed.

Lemma handle_files_ok user message file_id file_path file_data response
    guessed now s :
  attached_file message = Some file_id →
  let analysis := extract_text_from_candidates response in
  let record :=
    file_analysis (user_id user) file_path (or_octet_stream guessed)
      analysis now in
  handle_files user message (Return (file_path, file_data)) guessed
    (Return response) now s =
    (Return (), set_collection Files (files s ++ [record]) s,
     [GetFile file_id;
      GenerateContent vision_model analysis_prompt
        (Some (or_octet_stream guessed, file_data));
      InsertOne Files record;
      ReplyText (analysis_result analysis)]).
Proof.
  unfold attached_file, handle_files. unfold_M.
  destruct (last (photo message)); [by intros [= ->]|]. by intros ->.
Qed.

Lemma handle_websearch_usage user args answer now s :
  String.concat " " args = EmptyString →
  handle_websearch user args answer now s =
    (Return (), s, [ReplyText websearch_usage]).
Proof.
  intros Hq. unfold handle_websearch. by rewrite decide_True.
Qed.

Lemma handle_websearch_ok user args response now s :
  String.concat " " args ≠ EmptyString →
  let query := String.concat " " args in
  let record :=
    search_record (user_id user) query
      (extract_text_from_candidates response) now in
  handle_websearch user args (Return response) now s =
    (Return (), set_collection Searches (searches s ++ [record]) s,
     [GenerateContent nlp_model (web_search_prompt query) None;
      InsertOne Searches record;
      ReplyText (search_results (extract_text_from_candidates response))]).
Proof.
  intros Hq. unfold handle_websearch. by rewrite decide_False.
Qed.

(** No [try] around the backend call of [handle_websearch]: the exception
    leaves the handler. *)
Lemma handle_websearch_error user args e now s :
  String.concat " " args ≠ EmptyString →
  handle_websearch user args (Raise e) now s =
    (Raise e, s,
     [GenerateContent nlp_model
        (web_search_prompt (String.concat " " args)) None]).
Proof.
  intros Hq. unfold handle_websearch. by rewrite decide_False.
Qed.

(** The interaction handlers leave [users] and the cache alone. *)
Lemma conversational_registration ev s :
  conversational ev = true →
  users (step ev s).1 = users s ∧ user_cache (step ev s).1 = user_cache s.
Proof.
  destruct ev as [| |user msg answer now
                 |user message fetched guessed answer now
                 |user args answer now]; try done; intros _; unfold step; simpl.
  - destruct answer as [response|e].
    + by rewrite handle_message_ok.
    + by rewrite handle_message_error.
  - destruct (attached_file message) as [file_id|] eqn:Hfile.
    + destruct fetched as [[file_path file_data]|e].
      * destruct answer as [response|e].
        -- by rewrite (handle_files_ok _ _ file_id).
        -- by rewrite (handle_files_backend_error _ _ file_id).
      * by rewrite (handle_files_fetch_error _ _ file_id).
    + by rewrite handle_files_unsupported.
  - destruct (decide (String.concat " " args = EmptyString)) as [Hq|Hq].
    + by rewrite handle_websearch_usage.
    + destruct answer as [response|e].
      * by rewrite handle_websearch_ok.
      * by rewrite handle_websearch_error.
Qed.
End conversation.

(** ** Runs and their invariant *)

Section runs.
Implicit Types (s : state) (ev : event) (evs : list event).

Lemma final_cons ev evs s : final (ev :: evs) s = final evs (step ev s).1.
Proof.
  unfold final. simpl. destruct (step ev s) as [s1 t1]. simpl.
  by destruct (run evs s1).
Qed.

(** Every update takes one of the branches of [transition]. *)
Lemma step_transition ev s : transition s ev (step ev s).1 (step ev s).2.
Proof.
  destruct (conversational ev) eqn:Hconv.
  { apply conversation; [done | by apply conversational_registration ..]. }
  destruct ev as [user now1 now2|user contact now| | |]; try done;
    unfold step; simpl.
  - destruct (user_cache s !! user_id user) as [v|] eqn:Hc.
    { rewrite start_cached by eauto. apply start_hit. eauto. }
    destruct (find_one (user_id user) (users s)) as [d|] eqn:Hf.
    + destruct (decide (status_of d = VStr "pending_contact")) as [Hst|Hst].
      * rewrite (start_pending _ _ _ _ d) by done. by eapply start_remind.
      * rewrite (start_complete _ _ _ _ d) by done. by eapply start_welcome.
    + rewrite start_unknown by done. simpl. by apply start_insert.
  - destruct (decide (contact_user_id contact = Some (user_id user)))
      as [Hid|Hid].
    + destruct (decide ((update_one (user_id user)
                           (verified_fields contact now) (users s)).2 = 1))
        as [Hn|Hn].
      * rewrite handle_contact_success by done. simpl.
        apply contact_verify; [done|].
        destruct (update_one _ _ _) as [coll n]. simpl in *. by subst.
      * rewrite handle_contact_failure by done. by apply contact_fail.
    + rewrite handle_contact_mismatch by done. by apply contact_reject.
Qed.

Lemma registered_verified d :
  registered d → status_of d ≠ VStr "pending_contact" →
  d !! "status" = Some (VStr "verified").
Proof.
  unfold registered, status_of. intros [Hst|Hst] Hne; [|done].
  by rewrite Hst in Hne.
Qed.

Lemma find_one_None_not_elem (k : Z) (coll : list doc) :
  find_one k coll = None → Some (VInt k) ∉ (λ d, d !! "chat_id") <$> coll.
Proof.
  rewrite find_one_None, Forall_forall. intros Hnone Hin.
  apply list_elem_of_fmap in Hin as (d & Hd & Hin). by apply (Hnone d).
Qed.

Lemma transition_consistent s ev s' t :
  transition s ev s' t → consistent s → consistent s'.
Proof.
  intros Htr [Hcache Hreg Huniq].
  destruct Htr as [user now1 now2 Hc|user now1 now2 Hc Hf
                  |user now1 now2 d Hc Hf Hst|user now1 now2 d Hc Hf Hst
                  |user contact now Hid|user contact now coll Hid Hup
                  |user contact now Hid Hn|ev s' t Hconv Hu Hca];
    try done.
  - (* a new record is appended *)
    split; simpl.
    + intros k v Hk. destruct (Hcache k v Hk) as (d & -> & Hfind & Hver).
      exists d. simpl. by rewrite find_one_snoc, Hfind.
    + apply Forall_app. split; [done|].
      constructor; [|done]. left. apply new_user_status.
    + unfold unique_chat_ids. rewrite fmap_app. apply NoDup_app.
      split; [done|]. split; [|apply NoDup_singleton].
      simpl. rewrite new_user_chat_id.
      intros x Hx ->%list_elem_of_singleton.
      by apply find_one_None_not_elem in Hf.
  - (* the stored record enters the cache *)
    split; simpl; [|done..].
    intros k v. simpl. destruct (decide (k = user_id user)) as [->|Hk].
    + rewrite lookup_insert_eq. intros [= <-]. exists d.
      split; [done|]. split; [done|].
      apply registered_verified; [|done].
      rewrite Forall_forall in Hreg. apply Hreg.
      by apply find_one_Some in Hf as [Hin _].
    + rewrite lookup_insert_ne by done. apply Hcache.
  - (* the record is verified and the cache refreshed *)
    pose proof (verified_fields_chat_id contact now) as Hfields.
    assert (coll = (update_one (user_id user) (verified_fields contact now)
                      (users s)).1) as Hcoll by (by rewrite Hup).
    split; simpl.
    + intros k v. simpl. destruct (decide (k = user_id user)) as [->|Hk].
      * rewrite lookup_insert_eq. intros [= <-].
        destruct (update_one_modified (user_id user)
                    (verified_fields contact now) (users s)) as [d Hd];
          [by rewrite Hup|].
        rewrite Hcoll, update_one_find, Hd by done. simpl.
        eexists. split; [done|]. split; [done|].
        apply lookup_union_Some_l, verified_fields_status.
      * rewrite lookup_insert_ne by done. intros Hv.
        destruct (Hcache k v Hv) as (d & -> & Hfind & Hver).
        exists d. by rewrite Hcoll, update_one_find_ne.
    + rewrite Hcoll. apply update_one_Forall; [|done].
      intros d _. right.
      apply lookup_union_Some_l, verified_fields_status.
    + unfold unique_chat_ids. by rewrite Hcoll, update_one_chat_ids.
  - (* an interaction *)
    split.
    + intros k v. rewrite Hca, Hu. apply Hcache.
    + by rewrite Hu.
    + by rewrite Hu.
Qed.

Lemma step_consistent ev s : consistent s → consistent (step ev s).1.
Proof. apply transition_consistent with ev (step ev s).2, step_transition. Qed.

Lemma final_consistent evs s : consistent s → consistent (final evs s).
Proof.
  revert s. induction evs as [|ev evs IH]; intros s Hs; [done|].
  rewrite final_cons. by apply IH, step_consistent.
Qed.

Lemma boot_consistent s : boot s → consistent s.
Proof.
  intros [Hcache Hreg Huniq]. split; [|done..].
  intros k v. by rewrite Hcache, lookup_empty.
Qed.

Lemma boot_initial_state : boot initial_state.
Proof. split; simpl; [done | constructor | constructor]. Qed.

(** Boot states are what this program itself leaves behind. *)
Lemma restart_boot s : consistent s → boot (restart s).
Proof. by intros [_ Hreg Huniq]. Qed.
End runs.

(** ** Consequences of the invariant *)

Section registration_facts.
Implicit Types (s : state) (ev : event) (evs : list event) (d : doc).

Lemma status_of_pending d :
  status_of d = VStr "pending_contact"
  ↔ d !! "status" = Some (VStr "pending_contact").
Proof.
  unfold status_of. destruct (d !! "status") as [v|]; simpl.
  - split; congruence.
  - split; discriminate.
Qed.

Lemma records_of_absent (k : Z) (coll : list doc) :
  Some (VInt k) ∉ (λ d, d !! "chat_id") <$> coll → records_of k coll = 0%nat.
Proof.
  unfold records_of. induction coll as [|d rest IH]; simpl; [done|].
  intros [Hd Hrest]%not_elem_of_cons. rewrite filter_cons.
  case_decide as Hk; [congruence | auto].
Qed.

(** A unique index leaves at most one record per identity. *)
Lemma unique_records_of (k : Z) (coll : list doc) :
  unique_chat_ids coll → (records_of k coll ≤ 1)%nat.
Proof.
  unfold unique_chat_ids. induction coll as [|d rest IH]; simpl; [by auto|].
  intros [Hd Hrest]%NoDup_cons. unfold records_of. rewrite filter_cons.
  case_decide as Hk; [|by apply IH].
  simpl. fold (records_of k rest).
  rewrite records_of_absent; [done | by rewrite <- Hk].
Qed.

(** An identity without a record is not in the cache. *)
Lemma unknown_not_cached s (k : Z) :
  cache_sound s → find_one k (users s) = None → user_cache s !! k = None.
Proof.
  intros Hcache Hnone. destruct (user_cache s !! k) as [v|] eqn:Hk; [|done].
  destruct (Hcache k v Hk) as (d & _ & Hfind & _). congruence.
Qed.

(** The cache never loses an entry. *)
Lemma step_cache_grows ev s (k : Z) :
  is_Some (user_cache s !! k) → is_Some (user_cache (step ev s).1 !! k).
Proof.
  intros Hk. pose proof (step_transition ev s) as Htr.
  destruct (step ev s) as [s' t]. simpl in *.
  destruct Htr; simpl; try done.
  - by apply lookup_insert_is_Some'; right.
  - by apply lookup_insert_is_Some'; right.
  - congruence.
Qed.

Lemma final_cache_grows evs s (k : Z) :
  is_Some (user_cache s !! k) → is_Some (user_cache (final evs s) !! k).
Proof.
  revert s. induction evs as [|ev evs IH]; intros s Hk; [done|].
  rewrite final_cons. by apply IH, step_cache_grows.
Qed.

(** A pending, uncached registration stays so until a contact is shared. *)
Lemma step_awaiting_contact ev s (k : Z) :
  is_contact_share ev = false →
  awaiting_contact k s → awaiting_contact k (step ev s).1.
Proof.
  intros Hev (Hc & d & Hf & Hst). pose proof (step_transition ev s) as Htr.
  destruct (step ev s) as [s' t]. simpl in *.
  destruct Htr as [user now1 now2 Hc'|user now1 now2 Hc' Hf'
                  |user now1 now2 d' Hc' Hf' Hst'|user now1 now2 d' Hc' Hf' Hst'
                  | | | |ev s' t Hconv Hu Hca];
    try done; unfold awaiting_contact; simpl.
  - by eauto.
  - split; [done|]. exists d. by rewrite find_one_snoc, Hf.
  - by eauto.
  - split; [|by eauto].
    rewrite lookup_insert_ne; [done|]. intros Heq. congruence.
  - rewrite Hca, Hu. by eauto.
Qed.

Lemma final_awaiting_contact evs s (k : Z) :
  Forall (λ ev, is_contact_share ev = false) evs →
  awaiting_contact k s → awaiting_contact k (final evs s).
Proof.
  intros Hevs. revert s.
  induction Hevs as [|ev evs Hev Hevs IH]; intros s Hs; [done|].
  rewrite final_cons. by apply IH, step_awaiting_contact.
Qed.
End registration_facts.

(** ** Response extraction and interactions *)

Section interaction_facts.
Implicit Types (s : state) (ev : event).

Lemma append_empty_r (x : string) : x +:+ EmptyString = x.
Proof.
  induction x as [|c x IH]; [done|].
  change (String c (x +:+ EmptyString) = String c x). by rewrite IH.
Qed.

Lemma concat_empty_separator (l : list string) :
  String.concat EmptyString l = foldr String.append EmptyString l.
Proof.
  induction l as [|x [|y l] IH].
  - done.
  - symmetry. apply append_empty_r.
  - change (x +:+ String.concat EmptyString (y :: l)
            = x +:+ foldr String.append EmptyString (y :: l)).
    by rewrite IH.
Qed.

Lemma collect_text (l : list Part) (acc : list string) :
  fold_left (λ acc part, acc ++ [text part]) l acc = acc ++ (text <$> l).
Proof.
  revert acc. induction l as [|p l IH]; intros acc; simpl.
  - by rewrite app_nil_r.
  - by rewrite IH, <- app_assoc.
Qed.

Lemma extract_first_candidate (first : Candidate) (rest : list Candidate) :
  extract_text_from_candidates (mkResponse (first :: rest)) =
    foldr (λ part acc, text part +:+ acc) EmptyString (parts (content first)).
Proof.
  unfold extract_text_from_candidates. simpl.
  rewrite collect_text, concat_empty_separator. simpl.
  induction (parts (content first)) as [|p l IH]; simpl; [done | by f_equal].
Qed.

Lemma add_records_nil s : add_records [] [] [] s = s.
Proof. destruct s. unfold add_records. simpl. by rewrite !app_nil_r. Qed.

(** An interaction only appends documents, and what it appends and what it
    says does not depend on the state. *)
Lemma conversational_step ev :
  conversational ev = true →
  ∃ h f q t, ∀ s, step ev s = (add_records h f q s, t).
Proof.
  destruct ev as [| |user msg answer now
                 |user message fetched guessed answer now
                 |user args answer now]; try done; intros _; unfold step; simpl.
  - destruct answer as [response|e].
    + eexists [_], [], [], _. intros s. rewrite handle_message_ok.
      unfold add_records. simpl. by rewrite !app_nil_r.
    + eexists [], [], [], _. intros s.
      by rewrite handle_message_error, add_records_nil.
  - destruct (attached_file message) as [file_id|] eqn:Hfile.
    + destruct fetched as [[file_path file_data]|e].
      * destruct answer as [response|e].
        -- eexists [], [_], [], _. intros s.
           rewrite (handle_files_ok _ _ file_id) by done.
           unfold add_records. simpl. by rewrite !app_nil_r.
        -- eexists [], [], [], _. intros s.
           by rewrite (handle_files_backend_error _ _ file_id), add_records_nil.
      * eexists [], [], [], _. intros s.
        by rewrite (handle_files_fetch_error _ _ file_id), add_records_nil.
    + eexists [], [], [], _. intros s.
      by rewrite handle_files_unsupported, add_records_nil.
  - destruct (decide (String.concat " " args = EmptyString)) as [Hq|Hq].
    + eexists [], [], [], _. intros s.
      by rewrite handle_websearch_usage, add_records_nil.
    + destruct answer as [response|e].
      * eexists [], [], [_], _. intros s. rewrite handle_websearch_ok by done.
        unfold add_records. simpl. by rewrite !app_nil_r.
      * eexists [], [], [], _. intros s.
        by rewrite handle_websearch_error, add_records_nil.
Qed.

(** Arguments split at whitespace join to a string that is whitespace only
    when there is no argument at all. *)
Lemma tokens_whitespace_only (args : list string) :
  Forall token args →
  whitespace_only (String.concat " " args) = true →
  String.concat " " args = EmptyString.
Proof.
  intros Htok. destruct Htok as [|a rest [Ha Hnows] _]; [done|].
  destruct a as [|c a]; [done|]. simpl in Hnows.
  apply andb_prop in Hnows as [Hc _].
  destruct rest; simpl; intros Hws; apply andb_prop in Hws as [Hc' _];
    by rewrite Hc' in Hc.
Qed.

Lemma no_whitespace_snoc (word : string) (c : ascii) :
  no_whitespace word = true → whitespace c = false →
  no_whitespace (word +:+ String c EmptyString) = true.
Proof.
  intros Hword Hc. induction word as [|c' word IH].
  - simpl. by rewrite Hc.
  - change (no_whitespace (String c' (word +:+ String c EmptyString)) = true).
    simpl in *. apply andb_prop in Hword as [Hc' Hword].
    by rewrite Hc', IH.
Qed.

Lemma snoc_not_empty (word : string) (c : ascii) :
  word +:+ String c EmptyString ≠ EmptyString.
Proof. by destruct word. Qed.

Lemma words_tokens (text word : string) :
  no_whitespace word = true → Forall token (words text word).
Proof.
  revert word. induction text as [|c text IH]; intros word Hword; simpl.
  - case_decide; by repeat constructor.
  - destruct (whitespace c) eqn:Hc.
    + case_decide; [by apply IH|]. constructor; [done | by apply IH].
    + by apply IH, no_whitespace_snoc.
Qed.

(** The arguments of a command are tokens. *)
Lemma command_args_tokens (text : string) : Forall token (command_args text).
Proof.
  unfold command_args.
  pose proof (words_tokens text EmptyString eq_refl) as Hall.
  destruct Hall; [constructor | done].
Qed.
End interaction_facts.

(** * The claims *)

(** C1.  Cache soundness.  Take a process that has just started (empty
    cache, a database holding only records this program wrote) and deliver
    it any sequence of updates, entry events and contact shares in
    particular.  In the state reached, every cache entry is the record the
    store holds for that identity, and that record has status "verified".
    Moreover a further update changes the cache only in two places: the
    branch of [start] that finds a stored, verified record for an identity
    not yet cached, and the branch of [handle_contact] in which exactly one
    record was modified. *)
Theorem cache_soundness (s0 : state) (evs : list event) :
  boot s0 →
  let s := final evs s0 in
  (∀ (k : Z) (v : option doc),
     user_cache s !! k = Some v →
     ∃ d, v = Some d
          ∧ find_one k (users s) = Some d
          ∧ d !! "status" = Some (VStr "verified"))
  ∧ (∀ ev : event,
       user_cache (step ev s).1 ≠ user_cache s →
       (∃ user now1 now2 d,
          ev = Start user now1 now2
          ∧ user_cache s !! user_id user = None
          ∧ find_one (user_id user) (users s) = Some d
          ∧ d !! "status" = Some (VStr "verified")
          ∧ step ev s =
              (set_user_cache (user_id user) (Some d) s,
               [FindOne Users (user_id user); ReplyText (welcome_back user)]))
       ∨ (∃ user contact now coll,
            ev = ContactShared user contact now
            ∧ contact_user_id contact = Some (user_id user)
            ∧ update_one (user_id user) (verified_fields contact now) (users s)
              = (coll, 1)
            ∧ step ev s =
                (set_user_cache (user_id user) (find_one (user_id user) coll)
                   (set_collection Users coll s),
                 [LogReceivedContact contact;
                  UpdateOne Users (user_id user) (verified_fields contact now);
                  FindOne Users (user_id user);
                  ReplyText verification_successful]))).
Proof.
  intros Hboot s.
  assert (consistent s) as [Hcache Hreg Huniq]
    by (by apply final_consistent, boot_consistent).
  split; [exact Hcache|].
  intros ev. pose proof (step_transition ev s) as Htr.
  destruct (step ev s) as [s' t]. simpl in *.
  destruct Htr as [| | |user now1 now2 d Hc Hf Hst
                  | |user contact now coll Hid Hup| |ev s' t Hconv Hu Hca];
    intros Hchanged; try done.
  - left. exists user, now1, now2, d. repeat split; try done.
    apply registered_verified; [|done].
    rewrite Forall_forall in Hreg. apply Hreg.
    by apply find_one_Some in Hf as [Hin _].
  - right. by exists user, contact, now, coll.
Qed.

(** Alice registers and shares her contact on an empty database: her
    cache entry is her stored, verified record. *)
Lemma cache_soundness_witness :
  ∃ d, find_one 42
         (users (final [Start alice 1 2; ContactShared alice alice_contact 5]
                   initial_state)) = Some d
       ∧ d !! "status" = Some (VStr "verified").
Proof.
  destruct (cache_soundness initial_state
              [Start alice 1 2; ContactShared alice alice_contact 5])
    as [Hsound _].
  { split; simpl; [reflexivity | constructor | constructor]. }
  destruct (Hsound 42
              (Some (verified_fields alice_contact 5 ∪ new_user alice 1 2)))
    as (d & _ & Hfind & Hstatus).
  { vm_compute. reflexivity. }
  exists d. split; [exact Hfind | exact Hstatus].
Defined.

(** C2.  A contact share whose embedded identity is not the sender's
    (or that carries no identity at all) is logged and answered with the
    warning; no store operation is issued and the state, cache included, is
    left exactly as it was, whatever it was. *)
Theorem contact_mismatch_changes_nothing
    (s : state) (user : User) (contact : Contact) (now : Z) :
  contact_user_id contact ≠ Some (user_id user) →
  handle_contact user contact now s =
    (Return (), s, [LogReceivedContact contact; ReplyText own_contact_only])
  ∧ step (ContactShared user contact now) s =
      (s, [LogReceivedContact contact; ReplyText own_contact_only]).
Proof.
  intros Hne. unfold step. simpl.
  by rewrite handle_contact_mismatch.
Qed.

(** Alice, pending, forwards somebody else's contact. *)
Lemma contact_mismatch_changes_nothing_witness :
  let s := final [Start alice 1 2] initial_state in
  step (ContactShared alice other_contact 9) s =
    (s, [LogReceivedContact other_contact; ReplyText own_contact_only]).
Proof.
  intros s.
  apply (contact_mismatch_changes_nothing s alice other_contact 9).
  simpl. discriminate.
Defined.

(** C3.  What the entry event of a new identity does.  When the identity
    has neither a record nor a cache entry, [start] looks it up, inserts one
    record, with status "pending_contact", and then fails to build the
    contact button: the constructor raises, so [reply_text] is never
    reached.  One insert is made, but no contact request, and no message at
    all, is sent, and the exception leaves the handler. *)
Theorem start_new_user_sends_no_prompt
    (s : state) (user : User) (now1 now2 : Z) :
  user_cache s !! user_id user = None →
  find_one (user_id user) (users s) = None →
  let s1 := (step (Start user now1 now2) s).1 in
  users s1 = users s ++ [new_user user now1 now2]
  ∧ new_user user now1 now2 !! "status" = Some (VStr "pending_contact")
  ∧ user_cache s1 = user_cache s
  ∧ (step (Start user now1 now2) s).2 =
      [FindOne Users (user_id user);
       InsertOne Users (new_user user now1 now2);
       Unhandled unexpected_request_contact]
  ∧ (start user now1 now2 s).1.1 = Raise unexpected_request_contact.
Proof.
  intros Hc Hnone. unfold step. cbn [handler].
  rewrite start_unknown by done. simpl.
  split; [done|]. split; [apply new_user_status | done].
Qed.

(** The first entry event of Alice on an empty database. *)
Lemma start_new_user_sends_no_prompt_witness :
  (step (Start alice 1 2) initial_state).2 =
    [FindOne Users 42;
     InsertOne Users (new_user alice 1 2);
     Unhandled unexpected_request_contact].
Proof.
  destruct (start_new_user_sends_no_prompt initial_state alice 1 2)
    as (_ & _ & _ & Htrace & _).
  - reflexivity.
  - reflexivity.
  - exact Htrace.
Defined.

(** C4.  When a contact share of identity X modifies exactly one record,
    the store then holds for X a record with status "verified", the shared
    phone number and the time of verification; the success message is sent;
    the cache entry of X is that record, read back from the store; and from
    then on, whatever updates come in between, every entry event of X is
    answered with the personalized welcome alone: no store lookup is issued
    and the state does not change. *)
Theorem verified_then_welcomed_from_cache
    (s : state) (user : User) (contact : Contact) (now : Z) :
  contact_user_id contact = Some (user_id user) →
  (update_one (user_id user) (verified_fields contact now) (users s)).2 = 1 →
  let s1 := (step (ContactShared user contact now) s).1 in
  (∃ d, find_one (user_id user) (users s1) = Some d
        ∧ d !! "status" = Some (VStr "verified")
        ∧ d !! "phone_number" = Some (VStr (phone_number contact))
        ∧ d !! "phone_verified_at" = Some (VTime now)
        ∧ user_cache s1 !! user_id user = Some (Some d))
  ∧ (step (ContactShared user contact now) s).2 =
      [LogReceivedContact contact;
       UpdateOne Users (user_id user) (verified_fields contact now);
       FindOne Users (user_id user);
       ReplyText verification_successful]
  ∧ (∀ (evs : list event) (user' : User) (now1 now2 : Z),
       user_id user' = user_id user →
       step (Start user' now1 now2) (final evs s1) =
         (final evs s1, [ReplyText (welcome_back user')])).
Proof.
  intros Hid Hn s1. subst s1.
  pose (coll := (update_one (user_id user) (verified_fields contact now)
                   (users s)).1).
  assert (step (ContactShared user contact now) s =
            (set_user_cache (user_id user) (find_one (user_id user) coll)
               (set_collection Users coll s),
             [LogReceivedContact contact;
              UpdateOne Users (user_id user) (verified_fields contact now);
              FindOne Users (user_id user);
              ReplyText verification_successful])) as Hstep.
  { unfold step. simpl. by rewrite handle_contact_success. }
  rewrite Hstep. subst coll. simpl.
  destruct (update_one_modified _ _ _ Hn) as [d0 Hd0].
  pose proof (update_one_find (user_id user) (verified_fields contact now)
                (users s) (verified_fields_chat_id contact now)) as Hfind.
  rewrite Hd0 in Hfind. simpl in Hfind.
  split; [|split; [done|]].
  - exists (verified_fields contact now ∪ d0). rewrite Hfind.
    split; [done|].
    split; [apply lookup_union_Some_l, verified_fields_status|].
    split; [apply lookup_union_Some_l, verified_fields_phone_number|].
    split; [apply lookup_union_Some_l, verified_fields_phone_verified_at|].
    by simplify_map_eq.
  - intros evs user' now1 now2 Hsame.
    unfold step. simpl. rewrite start_cached; [done|].
    rewrite Hsame. apply final_cache_grows. simpl.
    rewrite lookup_insert_eq. by eauto.
Qed.

(** Alice registers, shares her contact, and after a search sends the
    entry event again. *)
Lemma verified_then_welcomed_from_cache_witness :
  let s := final [Start alice 1 2] initial_state in
  let s1 := (step (ContactShared alice alice_contact 5) s).1 in
  let s2 := final [Websearch alice ["rocq"] (Return two_by_two) 6] s1 in
  step (Start alice 7 8) s2 =
    (s2, [ReplyText "Welcome back Alice! Your registration is complete."]).
Proof.
  intros s s1 s2.
  destruct (verified_then_welcomed_from_cache s alice alice_contact 5)
    as (_ & _ & Hwelcome).
  - reflexivity.
  - vm_compute. reflexivity.
  - apply (Hwelcome [Websearch alice ["rocq"] (Return two_by_two) 6] alice 7 8).
    reflexivity.
Defined.

(** C10.  An entry event of an identity whose stored record has any status
    but "pending_contact" (a status "new", say, or no status field at all)
    is treated as a completed registration, the status never being compared
    with "verified": if the identity is not cached yet, the record is
    looked up and written into the cache, so that the cache then holds
    exactly that record under the identity, every other cache entry and the
    store being as before, and the personalized welcome is sent; if it is
    cached already, the welcome is sent at once. *)
Theorem start_accepts_any_other_status
    (s : state) (user : User) (now1 now2 : Z) (d : doc) :
  find_one (user_id user) (users s) = Some d →
  d !! "status" ≠ Some (VStr "pending_contact") →
  (user_cache s !! user_id user = None →
   let s1 := (step (Start user now1 now2) s).1 in
   step (Start user now1 now2) s =
     (set_user_cache (user_id user) (Some d) s,
      [FindOne Users (user_id user); ReplyText (welcome_back user)])
   ∧ user_cache s1 !! user_id user = Some (Some d)
   ∧ user_cache s1 = <[user_id user := Some d]> (user_cache s)
   ∧ users s1 = users s)
  ∧ (is_Some (user_cache s !! user_id user) →
     step (Start user now1 now2) s = (s, [ReplyText (welcome_back user)])).
Proof.
  intros Hf Hst. unfold step. cbn [handler]. split; intros Hc.
  - rewrite (start_complete _ _ _ _ d); [|done..|by rewrite status_of_pending].
    simpl. split; [done|]. split; [|done]. by rewrite lookup_insert_eq.
  - by rewrite start_cached.
Qed.

(** A record without a status field is welcomed, and after the entry
    event the cache holds it. *)
Lemma start_accepts_any_other_status_witness :
  status_of legacy_record = VStr "new"
  ∧ user_cache legacy_state !! 42 = None
  ∧ user_cache (step (Start alice 1 2) legacy_state).1 !! 42
    = Some (Some legacy_record)
  ∧ (step (Start alice 1 2) legacy_state).2 =
      [FindOne Users 42;
       ReplyText "Welcome back Alice! Your registration is complete."].
Proof.
  split; [reflexivity|]. split; [reflexivity|].
  destruct (start_accepts_any_other_status legacy_state alice 1 2 legacy_record)
    as [Hmiss _].
  - reflexivity.
  - vm_compute. discriminate.
  - destruct Hmiss as (Hstep & Hcache & _); [reflexivity|].
    split; [exact Hcache | exact (f_equal snd Hstep)].
Defined.

(** C5.  Response extraction.  A result without candidates yields the
    fixed text "No candidates returned."; a result with at least one
    candidate yields the texts of all segments of the first candidate,
    appended in their order, whatever the later candidates are.  With two
    candidates of two segments each, the result is the first segment of the
    first candidate followed by its second segment. *)
Theorem extraction_contract :
  extract_text_from_candidates (mkResponse []) = "No candidates returned."
  ∧ (∀ (first : Candidate) (rest : list Candidate),
       extract_text_from_candidates (mkResponse (first :: rest)) =
         foldr (λ part acc, text part +:+ acc) EmptyString
           (parts (content first)))
  ∧ (∀ a b c d : string,
       extract_text_from_candidates
         (mkResponse
            [mkCandidate (mkContent [mkPart a; mkPart b]);
             mkCandidate (mkContent [mkPart c; mkPart d])])
       = a +:+ b).
Proof.
  split; [reflexivity|]. split; [apply extract_first_candidate|].
  intros a b c d. rewrite extract_first_candidate. simpl.
  by rewrite append_empty_r.
Qed.

(** C9.  When the first candidate has no segment at all, extraction yields
    the empty string, which is not the text used for a result without
    candidates. *)
Theorem extraction_of_empty_candidate (rest : list Candidate) :
  extract_text_from_candidates (mkResponse (mkCandidate (mkContent []) :: rest))
    = EmptyString
  ∧ extract_text_from_candidates
      (mkResponse (mkCandidate (mkContent []) :: rest))
    ≠ "No candidates returned.".
Proof. split; [reflexivity | discriminate]. Qed.

(** C8.  Verification is advisory for the interaction handlers.  Take a
    text message, a file or a search, and two states that agree on the
    three interaction collections but differ arbitrarily in [users] and in
    the cache (the user verified in one, pending or unknown in the other).
    The handler makes the same calls in both (the same backend request, the
    same insert, the same replies), the two resulting states again agree on
    the interaction collections, and neither run touches [users] or the
    cache. *)
Theorem verification_is_advisory (ev : event) (s1 s2 : state) :
  conversational ev = true →
  same_conversations s1 s2 →
  (step ev s1).2 = (step ev s2).2
  ∧ same_conversations (step ev s1).1 (step ev s2).1
  ∧ users (step ev s1).1 = users s1
  ∧ user_cache (step ev s1).1 = user_cache s1
  ∧ users (step ev s2).1 = users s2
  ∧ user_cache (step ev s2).1 = user_cache s2.
Proof.
  intros Hconv (Hh & Hf & Hq).
  destruct (conversational_step ev Hconv) as (h & f & q & t & Hstep).
  rewrite !Hstep. unfold same_conversations. simpl.
  by rewrite Hh, Hf, Hq.
Qed.

(** The same text message, first with Alice unknown, then with Alice
    verified. *)
Lemma verification_is_advisory_witness :
  let ev := TextMessage alice "hi" (Return two_by_two) 9 in
  let verified :=
    final [Start alice 1 2; ContactShared alice alice_contact 5] initial_state in
  (step ev initial_state).2 = (step ev verified).2.
Proof.
  intros ev verified.
  destruct (verification_is_advisory ev initial_state verified)
    as [Hsame _].
  - reflexivity.
  - repeat split; reflexivity.
  - exact Hsame.
Defined.

(** C6, as the claim states it, fails.  A search without arguments is
    answered with the usage text and nothing is logged; a search whose
    backend call raises sends no reply and logs nothing, the exception
    leaves the handler.  So it is not true that every failing interaction
    is answered, logged, and writes nothing. *)
Lemma failed_interaction_counterexample :
  let empty_search := Websearch alice [] (Return two_by_two) 3 in
  let failing_search := Websearch alice ["rocq"] (Raise (Failure "quota")) 4 in
  fails empty_search = true
  ∧ step empty_search initial_state =
      (initial_state, [ReplyText websearch_usage])
  ∧ fails failing_search = true
  ∧ step failing_search initial_state =
      (initial_state,
       [GenerateContent nlp_model (web_search_prompt "rocq") None;
        Unhandled (Failure "quota")])
  ∧ ¬ (∀ (ev : event) (s : state),
         fails ev = true →
         (∃ msg, ReplyText msg ∈ (step ev s).2)
         ∧ (∃ msg, LogError msg ∈ (step ev s).2)
         ∧ (step ev s).1 = s).
Proof.
  intros empty_search failing_search.
  repeat (split; [reflexivity|]).
  intros Hclaim.
  destruct (Hclaim failing_search initial_state) as [[msg Hreply] _];
    [reflexivity|].
  change (ReplyText msg
          ∈ [GenerateContent nlp_model (web_search_prompt "rocq") None;
             Unhandled (Failure "quota")]) in Hreply.
  rewrite !elem_of_cons, elem_of_nil in Hreply.
  by destruct Hreply as [|[|]].
Qed.

(** C6, amended.  A text message whose backend call raises: the error is
    logged, the apology is sent, nothing is written.  A file update with
    neither photo nor document: the unsupported-type text is sent, nothing
    else happens.  A file whose download, or whose backend call, raises: the
    error is logged, the failure text is sent, nothing is written.  A search
    with an empty query: the usage text is sent, nothing else happens. *)
Theorem failed_interaction_writes_nothing (user : User) (now : Z) (s : state) :
  (∀ (user_message : string) (e : exn),
     step (TextMessage user user_message (Raise e) now) s =
       (s, [GenerateContent nlp_model (message_prompt user_message) None;
            LogError ("Error generating response: " +:+ str e);
            ReplyText sorry]))
  ∧ (∀ message fetched guessed answer,
       unsupported message = true →
       step (FileMessage user message fetched guessed answer now) s =
         (s, [ReplyText unsupported_file_type]))
  ∧ (∀ message file_id guessed answer (e : exn),
       attached_file message = Some file_id →
       step (FileMessage user message (Raise e) guessed answer now) s =
         (s, [GetFile file_id;
              LogError ("File processing error: " +:+ str e);
              ReplyText failed_to_analyze]))
  ∧ (∀ message file_id file_path file_data guessed (e : exn),
       attached_file message = Some file_id →
       step (FileMessage user message (Return (file_path, file_data)) guessed
               (Raise e) now) s =
         (s, [GetFile file_id;
              GenerateContent vision_model analysis_prompt
                (Some (or_octet_stream guessed, file_data));
              LogError ("File processing error: " +:+ str e);
              ReplyText failed_to_analyze]))
  ∧ (∀ args answer,
       String.concat " " args = EmptyString →
       step (Websearch user args answer now) s =
         (s, [ReplyText websearch_usage])).
Proof.
  unfold step. cbn [handler]. split; [|split; [|split; [|split]]].
  - intros user_message e. by rewrite handle_message_error.
  - intros message fetched guessed answer Hu.
    apply unsupported_attached_file in Hu.
    by rewrite handle_files_unsupported.
  - intros message file_id guessed answer e Hfile.
    by rewrite (handle_files_fetch_error _ _ file_id).
  - intros message file_id file_path file_data guessed e Hfile.
    by rewrite (handle_files_backend_error _ _ file_id).
  - intros args answer Hq. by rewrite handle_websearch_usage.
Qed.

(** A photo whose download fails, while Alice is pending. *)
Lemma failed_interaction_writes_nothing_witness :
  let s := final [Start alice 1 2] initial_state in
  step (FileMessage alice (mkAttachment ["small"; "large"] None)
          (Raise (Failure "timed out")) None (Return two_by_two) 3) s =
    (s, [GetFile "large";
         LogError "File processing error: timed out";
         ReplyText failed_to_analyze]).
Proof.
  intros s.
  destruct (failed_interaction_writes_nothing alice 3 s)
    as (_ & _ & Hfetch & _).
  apply (Hfetch (mkAttachment ["small"; "large"] None) "large" None
           (Return two_by_two) (Failure "timed out")).
  reflexivity.
Defined.

(** C7.  A search command whose joined argument string consists only of
    whitespace, the empty string included, is answered with the usage text:
    no backend call is made, nothing is written, the state is unchanged.
    The arguments are those of a command, as the command handler registered
    in [main] delivers them: the words of the message text after the first,
    each one not empty and free of whitespace (see
    [command_args_tokens]). *)
Theorem websearch_whitespace_only_query
    (user : User) (args : list string) (answer : outcome Response) (now : Z)
    (s : state) :
  Forall token args →
  whitespace_only (String.concat " " args) = true →
  handle_websearch user args answer now s =
    (Return (), s, [ReplyText websearch_usage])
  ∧ step (Websearch user args answer now) s = (s, [ReplyText websearch_usage]).
Proof.
  intros Htokens Hws. unfold step. cbn [handler].
  by rewrite handle_websearch_usage by by apply tokens_whitespace_only.
Qed.

(** The command followed by blanks only. *)
Lemma websearch_whitespace_only_query_witness :
  command_args "/websearch   " = []
  ∧ step (Websearch alice (command_args "/websearch   ") (Return two_by_two) 3)
      alice_verified =
      (alice_verified, [ReplyText "Usage: /websearch <your query here>"]).
Proof.
  split; [reflexivity|].
  apply (websearch_whitespace_only_query alice (command_args "/websearch   ")
           (Return two_by_two) 3 alice_verified).
  - apply command_args_tokens.
  - reflexivity.
Defined.

(** * Further properties of the handlers *)

(** ** Contact shares and the store *)

Section contact_facts.
Implicit Types (s : state) (user : User) (contact : Contact) (d : doc).

(** [modified_count] in terms of the record found. *)
Lemma update_one_modified_count (q : Z) (fields : doc) (coll : list doc) :
  (update_one q fields coll).2 =
    match find_one q coll with
    | Some d => if decide (fields ∪ d = d) then 0 else 1
    | None => 0
    end.
Proof.
  induction coll as [|d rest IH]; simpl; [done|].
  destruct (matches q d); simpl; [done|].
  by destruct (update_one q fields rest).
Qed.

Lemma verified_fields_twice contact now d :
  verified_fields contact now ∪ (verified_fields contact now ∪ d)
  = verified_fields contact now ∪ d.
Proof. by rewrite map_union_assoc, map_union_idemp. Qed.

Lemma verified_fields_other contact now (field : string) :
  ¬ verification_field field → verified_fields contact now !! field = None.
Proof.
  unfold verification_field, verified_fields. intros Hf.
  rewrite !lookup_insert_ne, lookup_singleton_ne; naive_solver.
Qed.

Lemma verified_new_user_differs user contact now1 now2 now :
  verified_fields contact now ∪ new_user user now1 now2
  ≠ new_user user now1 now2.
Proof.
  intros Heq. apply (f_equal (λ d : doc, d !! "status")) in Heq.
  rewrite (lookup_union_Some_l _ _ _ _ (verified_fields_status contact now)),
    new_user_status in Heq.
  discriminate.
Qed.
End contact_facts.

(** X1.  A contact share of the sender's own contact, when the store has
    no record for the sender (no entry event came first): the update matches
    nothing, no record is created, the cache is not written, and the user is
    told that verification failed. *)
Theorem contact_before_registration
    (s : state) (user : User) (contact : Contact) (now : Z) :
  contact_user_id contact = Some (user_id user) →
  find_one (user_id user) (users s) = None →
  step (ContactShared user contact now) s =
    (s, [LogReceivedContact contact;
         UpdateOne Users (user_id user) (verified_fields contact now);
         ReplyText verification_failed]).
Proof.
  intros Hid Hnone. unfold step. cbn [handler].
  rewrite handle_contact_failure; [done..|].
  by rewrite update_one_modified_count, Hnone.
Qed.

Lemma contact_before_registration_witness :
  step (ContactShared alice alice_contact 5) initial_state =
    (initial_state,
     [LogReceivedContact alice_contact;
      UpdateOne Users 42 (verified_fields alice_contact 5);
      ReplyText "❌ Verification failed. Please try /start again"]).
Proof.
  apply (contact_before_registration initial_state alice alice_contact 5);
    reflexivity.
Defined.

(** X2.  The same contact share delivered a second time with the same
    clock reading writes the values that are stored already: nothing is
    modified, the state stays as the first delivery left it, and the answer
    is the failure text, also when the first delivery succeeded. *)
Theorem contact_share_replayed
    (s : state) (user : User) (contact : Contact) (now : Z) :
  contact_user_id contact = Some (user_id user) →
  let s1 := (step (ContactShared user contact now) s).1 in
  step (ContactShared user contact now) s1 =
    (s1, [LogReceivedContact contact;
          UpdateOne Users (user_id user) (verified_fields contact now);
          ReplyText verification_failed]).
Proof.
  intros Hid s1.
  assert ((update_one (user_id user) (verified_fields contact now)
             (users s1)).2 ≠ 1) as Hn.
  { subst s1. unfold step. cbn [handler].
    destruct (decide ((update_one (user_id user)
                         (verified_fields contact now) (users s)).2 = 1))
      as [Hone|Hone].
    - rewrite handle_contact_success by done. simpl.
      rewrite update_one_modified_count, update_one_find
        by apply verified_fields_chat_id.
      destruct (update_one_modified _ _ _ Hone) as [d ->]. simpl.
      by rewrite decide_True by apply verified_fields_twice.
    - by rewrite handle_contact_failure. }
  unfold step at 1. cbn [handler].
  by rewrite handle_contact_failure.
Qed.

Lemma contact_share_replayed_witness :
  step (ContactShared alice alice_contact 5) alice_verified =
    (alice_verified,
     [LogReceivedContact alice_contact;
      UpdateOne Users 42 (verified_fields alice_contact 5);
      ReplyText verification_failed]).
Proof.
  apply (contact_share_replayed (final [Start alice 1 2] initial_state)
           alice alice_contact 5).
  reflexivity.
Defined.

(** X3.  Registration end to end.  For an identity with neither record nor
    cache entry, an entry event followed by a share of the sender's own
    contact leaves in the store the record the entry event inserted with the
    three verification fields written over it; that record is what the cache
    holds, and the second update is answered with the success text. *)
Theorem registration_flow
    (s : state) (user : User) (contact : Contact) (now1 now2 now : Z) :
  find_one (user_id user) (users s) = None →
  user_cache s !! user_id user = None →
  contact_user_id contact = Some (user_id user) →
  let s1 := (step (Start user now1 now2) s).1 in
  let record := verified_fields contact now ∪ new_user user now1 now2 in
  find_one (user_id user) (users (step (ContactShared user contact now) s1).1)
    = Some record
  ∧ user_cache (step (ContactShared user contact now) s1).1 !! user_id user
    = Some (Some record)
  ∧ (step (ContactShared user contact now) s1).2 =
      [LogReceivedContact contact;
       UpdateOne Users (user_id user) (verified_fields contact now);
       FindOne Users (user_id user);
       ReplyText verification_successful].
Proof.
  intros Hnone Hc Hid s1 record.
  assert (find_one (user_id user) (users s1) = Some (new_user user now1 now2))
    as Hnew.
  { subst s1. unfold step. cbn [handler]. rewrite start_unknown by done.
    simpl. rewrite find_one_snoc, Hnone.
    unfold matches. by rewrite bool_decide_eq_true_2 by apply new_user_chat_id. }
  assert ((update_one (user_id user) (verified_fields contact now)
             (users s1)).2 = 1) as Hone.
  { rewrite update_one_modified_count, Hnew.
    by rewrite decide_False by apply verified_new_user_differs. }
  unfold step. cbn [handler]. rewrite handle_contact_success by done. simpl.
  rewrite update_one_find, Hnew by apply verified_fields_chat_id. simpl.
  split; [done|]. split; [|done]. by rewrite lookup_insert_eq.
Qed.

Lemma registration_flow_witness :
  find_one 42 (users alice_verified)
  = Some (verified_fields alice_contact 5 ∪ new_user alice 1 2).
Proof.
  destruct (registration_flow initial_state alice alice_contact 1 2 5)
    as [Hrecord _]; [reflexivity..|].
  exact Hrecord.
Defined.

(** ** Records over a run *)

Section record_facts.
Implicit Types (s : state) (ev : event) (evs : list event) (d : doc) (k : Z).

Lemma record_evolves_refl d : record_evolves d d.
Proof. by repeat split. Qed.

Lemma record_evolves_trans d1 d2 d3 :
  record_evolves d1 d2 → record_evolves d2 d3 → record_evolves d1 d3.
Proof.
  intros (Hf1 & Hs1 & Hp1) (Hf2 & Hs2 & Hp2). repeat split; [|by auto..].
  intros field Hfield. by rewrite Hf2, Hf1.
Qed.

Lemma record_evolves_verified contact now d :
  record_evolves d (verified_fields contact now ∪ d).
Proof.
  repeat split.
  - intros field Hfield.
    by rewrite lookup_union_r by by apply verified_fields_other.
  - intros _. apply lookup_union_Some_l, verified_fields_status.
  - intros _. eexists.
    apply lookup_union_Some_l, verified_fields_phone_number.
Qed.

(** One update keeps every record, up to the verification fields. *)
Lemma step_record ev s k d :
  find_one k (users s) = Some d →
  ∃ d', find_one k (users (step ev s).1) = Some d' ∧ record_evolves d d'.
Proof.
  intros Hd. pose proof (step_transition ev s) as Htr.
  destruct (step ev s) as [s' t]. simpl in *.
  destruct Htr as [| | | |
                  |user contact now coll Hid Hup| |ev s' t Hconv Hu Hca];
    simpl; try (exists d; split; [done | apply record_evolves_refl]).
  - exists d. split; [|apply record_evolves_refl].
    by rewrite find_one_snoc, Hd.
  - assert (coll = (update_one (user_id user) (verified_fields contact now)
                      (users s)).1) as -> by (by rewrite Hup).
    pose proof (verified_fields_chat_id contact now) as Hfields.
    destruct (decide (k = user_id user)) as [->|Hk].
    + rewrite update_one_find, Hd by done. simpl. eexists.
      split; [done | apply record_evolves_verified].
    + rewrite update_one_find_ne by done.
      exists d. split; [done | apply record_evolves_refl].
  - rewrite Hu. exists d. split; [done | apply record_evolves_refl].
Qed.

Lemma final_record evs s k d :
  find_one k (users s) = Some d →
  ∃ d', find_one k (users (final evs s)) = Some d' ∧ record_evolves d d'.
Proof.
  revert s d. induction evs as [|ev evs IH]; intros s d Hd.
  - exists d. split; [done | apply record_evolves_refl].
  - rewrite final_cons.
    destruct (step_record ev s k d Hd) as (d1 & Hd1 & Hev1).
    destruct (IH _ _ Hd1) as (d2 & Hd2 & Hev2).
    exists d2. split; [done|]. by apply record_evolves_trans with d1.
Qed.

(** X6.  Isolation between users.  An update from one user never changes
    what the store holds for another chat identity, nor the cache entry of
    another identity. *)
Theorem other_identities_untouched ev s k :
  k ≠ user_id (sender ev) →
  find_one k (users (step ev s).1) = find_one k (users s)
  ∧ user_cache (step ev s).1 !! k = user_cache s !! k.
Proof.
  intros Hk. pose proof (step_transition ev s) as Htr.
  destruct (step ev s) as [s' t]. simpl in *.
  destruct Htr as [|user now1 now2 Hc Hf| |user now1 now2 d Hc Hf Hst|
                  |user contact now coll Hid Hup| |ev s' t Hconv Hu Hca];
    simpl in *; try done.
  - split; [|done]. rewrite find_one_snoc.
    destruct (find_one k (users s)); [done|].
    unfold matches. rewrite bool_decide_eq_false_2; [done|].
    rewrite new_user_chat_id. congruence.
  - split; [done|]. by rewrite lookup_insert_ne.
  - assert (coll = (update_one (user_id user) (verified_fields contact now)
                      (users s)).1) as -> by (by rewrite Hup).
    split; [|by rewrite lookup_insert_ne].
    by rewrite update_one_find_ne by auto using verified_fields_chat_id.
  - by rewrite Hu, Hca.
Qed.
End record_facts.

(** X4.  Registration data is permanent.  Whatever updates are delivered,
    a stored record is never removed, and every field of it other than
    "phone_number", "status" and "phone_verified_at" keeps its value:
    "first_name", "username", "registered_at" and also "last_interaction"
    stay as the entry event wrote them. *)
Theorem registration_data_is_permanent
    (evs : list event) (s : state) (k : Z) (d : doc) :
  find_one k (users s) = Some d →
  ∃ d', find_one k (users (final evs s)) = Some d'
        ∧ ∀ field : string,
            field ≠ "phone_number" → field ≠ "status" →
            field ≠ "phone_verified_at" →
            d' !! field = d !! field.
Proof.
  intros Hd. destruct (final_record evs s k d Hd) as (d' & Hd' & Hfields & _).
  exists d'. split; [done|]. intros field H1 H2 H3. apply Hfields.
  unfold verification_field. by intros [?|[?|?]].
Qed.

(** Alice's "last_interaction" after she has shared her contact and sent a
    message is still the second clock reading of her entry event. *)
Lemma registration_data_is_permanent_witness :
  ∃ d', find_one 42
          (users (final [ContactShared alice alice_contact 5;
                         TextMessage alice "hi" (Return two_by_two) 6]
                    (final [Start alice 1 2] initial_state))) = Some d'
        ∧ d' !! "last_interaction" = Some (VTime 2).
Proof.
  destruct (registration_data_is_permanent
              [ContactShared alice alice_contact 5;
               TextMessage alice "hi" (Return two_by_two) 6]
              (final [Start alice 1 2] initial_state) 42 (new_user alice 1 2))
    as (d' & Hd' & Hfields).
  { reflexivity. }
  exists d'. split; [exact Hd'|].
  rewrite Hfields by discriminate. reflexivity.
Defined.

(** X5.  Verified is terminal.  Once the record of an identity has status
    "verified", no sequence of updates takes that status away again, and a
    stored phone number is never removed (it can be replaced by a later
    contact share). *)
Theorem verified_is_terminal
    (evs : list event) (s : state) (k : Z) (d : doc) :
  find_one k (users s) = Some d →
  d !! "status" = Some (VStr "verified") →
  ∃ d', find_one k (users (final evs s)) = Some d'
        ∧ d' !! "status" = Some (VStr "verified")
        ∧ (is_Some (d !! "phone_number") → is_Some (d' !! "phone_number")).
Proof.
  intros Hd Hver.
  destruct (final_record evs s k d Hd) as (d' & Hd' & _ & Hstatus & Hphone).
  exists d'. by auto.
Qed.

(** Alice, verified, sends the entry event and shares another number. *)
Lemma verified_is_terminal_witness :
  ∃ d', find_one 42
          (users (final [Start alice 6 7;
                         ContactShared alice (mkContact (Some 42) "+1777") 8]
                    alice_verified)) = Some d'
        ∧ d' !! "status" = Some (VStr "verified").
Proof.
  destruct (verified_is_terminal
              [Start alice 6 7;
               ContactShared alice (mkContact (Some 42) "+1777") 8]
              alice_verified 42
              (verified_fields alice_contact 5 ∪ new_user alice 1 2))
    as (d' & Hd' & Hstatus & _).
  - vm_compute. reflexivity.
  - vm_compute. reflexivity.
  - exists d'. split; [exact Hd' | exact Hstatus].
Defined.

(** Bob registers; Alice's record and cache entry are as before. *)
Lemma other_identities_untouched_witness :
  find_one 42 (users (step (Start bob 8 9) alice_verified).1)
  = find_one 42 (users alice_verified).
Proof.
  destruct (other_identities_untouched (Start bob 8 9) alice_verified 42)
    as [Hrecord _].
  - simpl. discriminate.
  - exact Hrecord.
Defined.

(** X7.  The cache has no eviction: an identity that has a cache entry has
    one after any further sequence of updates. *)
Theorem cache_never_evicts (evs : list event) (s : state) (k : Z) :
  is_Some (user_cache s !! k) → is_Some (user_cache (final evs s) !! k).
Proof. apply final_cache_grows. Qed.

Lemma cache_never_evicts_witness :
  is_Some (user_cache
             (final [Start bob 8 9; Websearch alice [] (Return two_by_two) 10]
                alice_verified) !! 42).
Proof.
  apply (cache_never_evicts
           [Start bob 8 9; Websearch alice [] (Return two_by_two) 10]
           alice_verified 42).
  vm_compute. eexists. reflexivity.
Defined.

(** ** What every update does to the collections and says to the user *)

(** Case analysis over all the branches of all the handlers: [step ev s] is
    replaced by the state and the calls of the branch taken. *)
Ltac step_cases ev s :=
  let user := fresh "user" in
  let d := fresh "d" in
  let file_id := fresh "file_id" in
  unfold step;
  destruct ev as [user ? ?|user ?contact ?now|user ?msg ?answer ?now
                 |user ?message ?fetched ?guessed ?answer ?now
                 |user ?args ?answer ?now];
  cbn [handler];
  [ destruct (user_cache s !! user_id user) eqn:?;
    [ rewrite start_cached by eauto
    | destruct (find_one (user_id user) (users s)) as [d|] eqn:?;
      [ destruct (decide (status_of d = VStr "pending_contact"));
        [ rewrite (start_pending _ _ _ _ d) by done
        | rewrite (start_complete _ _ _ _ d) by done ]
      | rewrite start_unknown by done ] ]
  | destruct (decide (contact_user_id contact = Some (user_id user)));
    [ destruct (decide ((update_one (user_id user)
                           (verified_fields contact now) (users s)).2 = 1));
      [ rewrite handle_contact_success by done
      | rewrite handle_contact_failure by done ]
    | rewrite handle_contact_mismatch by done ]
  | destruct answer;
    [ rewrite handle_message_ok | rewrite handle_message_error ]
  | destruct (attached_file message) as [file_id|] eqn:?;
    [ destruct fetched as [[? ?]|?];
      [ destruct answer;
        [ rewrite (handle_files_ok _ _ file_id) by done
        | rewrite (handle_files_backend_error _ _ file_id) by done ]
      | rewrite (handle_files_fetch_error _ _ file_id) by done ]
    | rewrite handle_files_unsupported by done ]
  | destruct (decide (String.concat " " args = EmptyString));
    [ rewrite handle_websearch_usage by done
    | destruct answer;
      [ rewrite handle_websearch_ok by done
      | rewrite handle_websearch_error by done ] ] ];
  cbn [fst snd].

Section update_facts.
Implicit Types (s : state) (ev : event) (evs : list event) (c : collection).

Lemma unsupported_false message :
  is_Some (attached_file message) → unsupported message = false.
Proof.
  intros [file_id Hfile]. destruct (unsupported message) eqn:Hu; [|done].
  apply unsupported_attached_file in Hu. congruence.
Qed.

(** What one update adds to an interaction collection. *)
Lemma step_interaction_collection ev s c :
  c ≠ Users →
  ∃ added,
    get_collection c (step ev s).1 = get_collection c s ++ added
    ∧ length added
      = (if bool_decide (home ev = c) && answered ev then 1 else 0)%nat.
Proof.
  intros Hc. step_cases ev s; destruct c; try done; simpl;
    rewrite ?unsupported_false by eauto;
    rewrite ?(proj2 (unsupported_attached_file _)) by done;
    rewrite ?bool_decide_eq_true_2 by done;
    rewrite ?bool_decide_eq_false_2 by done;
    simpl;
    first [ by exists []; rewrite app_nil_r | by eexists [_] ].
Qed.
End update_facts.

Section run_facts.
Implicit Types (s : state) (ev : event) (evs : list event) (c : collection).

Lemma answered_in_cons c ev evs :
  answered_in c (ev :: evs)
  = ((if bool_decide (home ev = c) && answered ev then 1 else 0)
     + answered_in c evs)%nat.
Proof.
  unfold answered_in. rewrite filter_cons.
  destruct (bool_decide (home ev = c)) eqn:Hhome;
    [apply bool_decide_eq_true in Hhome | apply bool_decide_eq_false in Hhome];
    destruct (answered ev); simpl; case_decide; intuition congruence.
Qed.

(** X8.  The three interaction collections are append-only, and they grow
    by exactly one document per interaction that goes through.  After any
    sequence of updates, [chat_history] (likewise [files], [searches]) is
    what it was before followed by as many new documents as there were text
    messages (files, searches) whose backend call returned; entry events,
    contact shares and failed interactions add nothing and nothing is ever
    changed or removed. *)
Theorem interaction_collections_append_only evs s c :
  c ≠ Users →
  ∃ added,
    get_collection c (final evs s) = get_collection c s ++ added
    ∧ length added = answered_in c evs.
Proof.
  intros Hc. revert s. induction evs as [|ev evs IH]; intros s.
  - exists []. by rewrite app_nil_r.
  - rewrite final_cons, answered_in_cons.
    destruct (step_interaction_collection ev s c Hc) as (a1 & Ha1 & Hl1).
    destruct (IH (step ev s).1) as (a2 & Ha2 & Hl2).
    exists (a1 ++ a2). rewrite Ha2, Ha1, <- app_assoc. split; [done|].
    rewrite length_app. lia.
Qed.
End run_facts.

(** Two text messages, one of which fails, and a search: one exchange. *)
Lemma interaction_collections_append_only_witness :
  length (chat_history
            (final [TextMessage alice "hi" (Return two_by_two) 6;
                    TextMessage alice "ho" (Raise (Failure "quota")) 7;
                    Websearch alice ["rocq"] (Return two_by_two) 8]
               alice_verified)) = 1%nat.
Proof.
  destruct (interaction_collections_append_only
              [TextMessage alice "hi" (Return two_by_two) 6;
               TextMessage alice "ho" (Raise (Failure "quota")) 7;
               Websearch alice ["rocq"] (Return two_by_two) 8]
              alice_verified ChatHistory)
    as (added & Hcoll & Hlen).
  - discriminate.
  - apply (f_equal length) in Hcoll. rewrite length_app, Hlen in Hcoll.
    exact Hcoll.
Defined.

(** X9.  Every handler keeps to its own collection.  Whatever the state,
    an update inserts only into the collection of its handler ([users] for
    entry events, [chat_history] for text, [files] for attachments,
    [searches] for searches); lookups and updates happen only in the two
    registration handlers, only on [users], and only under the sender's own
    chat identity.  In particular the interaction handlers never read the
    store. *)
Theorem handlers_keep_to_their_collection (ev : event) (s : state) :
  Forall (own_store_call ev) (step ev s).2.
Proof.
  step_cases ev s; repeat constructor; simpl; try done.
Qed.

(** X11.  Which file is analysed.  When the message carries photo sizes,
    the last of them is fetched, whether or not a document is attached as
    well; the document is fetched only when there is no photo. *)
Theorem photo_takes_precedence
    (user : User) (fetched : outcome (string * list byte))
    (guessed : option string) (answer : outcome Response) (now : Z)
    (s : state) :
  (∀ (sizes : list string) (largest : string) (document : option string),
     ∃ rest,
       (step (FileMessage user (mkAttachment (sizes ++ [largest]) document)
                fetched guessed answer now) s).2 = GetFile largest :: rest)
  ∧ (∀ file_id : string,
       ∃ rest,
         (step (FileMessage user (mkAttachment [] (Some file_id))
                  fetched guessed answer now) s).2 = GetFile file_id :: rest).
Proof.
  split.
  - intros sizes largest document.
    assert (attached_file (mkAttachment (sizes ++ [largest]) document)
            = Some largest) as Hfile
      by (unfold attached_file; simpl; by rewrite last_snoc).
    unfold step. cbn [handler].
    destruct fetched as [[file_path file_data]|e].
    + destruct answer as [response|e].
      * rewrite (handle_files_ok _ _ largest) by done. by eexists.
      * rewrite (handle_files_backend_error _ _ largest) by done. by eexists.
    + rewrite (handle_files_fetch_error _ _ largest) by done. by eexists.
  - intros file_id. unfold step. cbn [handler].
    destruct fetched as [[file_path file_data]|e].
    + destruct answer as [response|e].
      * rewrite (handle_files_ok _ _ file_id) by done. by eexists.
      * rewrite (handle_files_backend_error _ _ file_id) by done. by eexists.
    + rewrite (handle_files_fetch_error _ _ file_id) by done. by eexists.
Qed.

(** ** Strings: [split], the last segment, the joined query *)

Section string_facts.
Implicit Types (s a b w : string) (c : ascii).

Lemma append_cons c a b : String c a +:+ b = String c (a +:+ b).
Proof. reflexivity. Qed.

Lemma append_nil b : EmptyString +:+ b = b.
Proof. reflexivity. Qed.

Lemma split_nonempty c s : split c s ≠ [].
Proof.
  destruct s as [|c' s]; simpl; [done|].
  destruct (Ascii.eqb c' c); [done|]. by destruct (split c s).
Qed.

(** A string without the separator is its own single segment. *)
Lemma split_no_slash s : no_slash s = true → split "/" s = [s].
Proof.
  induction s as [|c s IH]; simpl; [done|].
  intros [Hc Hs]%andb_prop. apply negb_true_iff in Hc.
  by rewrite Hc, IH.
Qed.

(** Splitting distributes over a separator. *)
Lemma split_append_slash a b :
  split "/" (a +:+ "/" +:+ b) = split "/" a ++ split "/" b.
Proof.
  induction a as [|c a IH].
  - done.
  - rewrite append_cons. simpl. rewrite IH.
    destruct (Ascii.eqb c "/"); [done|].
    pose proof (split_nonempty "/" a) as Hne.
    by destruct (split "/" a).
Qed.

Lemma last_app_nonempty {A : Type} (l1 l2 : list A) :
  l2 ≠ [] → last (l1 ++ l2) = last l2.
Proof.
  intros Hne. destruct l2 as [|x l2 _] using rev_ind; [done|].
  by rewrite app_assoc, !last_snoc.
Qed.

Lemma join_empty_iff (args : list string) :
  String.concat " " args = EmptyString
  ↔ args = [] ∨ args = [EmptyString].
Proof.
  destruct args as [|x [|y args]].
  - naive_solver.
  - simpl. split; [intros ->; by right | by intros [|[= ->]]].
  - split; [|by intros [|]].
    change (String.concat " " (x :: y :: args))
      with (x +:+ " " +:+ String.concat " " (y :: args)).
    by destruct x.
Qed.
End string_facts.

(** X12.  The last segment ([s.split('/')[-1]], which gives both the
    stored "file_type" from the MIME type and the stored "filename" from the
    path).  A string without "/" is returned whole; of a string with "/",
    what follows the last "/" is returned, whatever comes before it. *)
Theorem last_segment_after_last_slash (b : string) :
  no_slash b = true →
  last_segment b = b ∧ ∀ a : string, last_segment (a +:+ "/" +:+ b) = b.
Proof.
  intros Hb. unfold last_segment.
  split; [by rewrite split_no_slash|].
  intros a. rewrite split_append_slash, last_app_nonempty
    by apply split_nonempty.
  by rewrite split_no_slash.
Qed.

Lemma last_segment_after_last_slash_witness :
  last_segment "application/octet-stream" = "octet-stream"
  ∧ last_segment "/tmp/downloads/photo.jpg" = "photo.jpg".
Proof.
  split.
  - apply (last_segment_after_last_slash "octet-stream"); reflexivity.
  - apply (proj2 (last_segment_after_last_slash "photo.jpg" eq_refl)
             "/tmp/downloads").
Defined.

(** X13.  When a search shows the usage text.  If there is no argument,
    or the only argument is the empty string, the usage text is the whole
    answer and the state is unchanged.  For every other argument list (a
    single blank included) the first thing the handler does is call the text
    model with the search prompt built from the arguments joined by single
    spaces, and the usage text is not what it answers. *)
Theorem websearch_usage_iff
    (user : User) (args : list string) (answer : outcome Response) (now : Z)
    (s : state) :
  ((step (Websearch user args answer now) s).2 = [ReplyText websearch_usage]
   ↔ args = [] ∨ args = [EmptyString])
  ∧ (args = [] ∨ args = [EmptyString] →
     step (Websearch user args answer now) s = (s, [ReplyText websearch_usage]))
  ∧ (¬ (args = [] ∨ args = [EmptyString]) →
     ∃ rest,
       (step (Websearch user args answer now) s).2 =
         GenerateContent nlp_model
           (web_search_prompt (String.concat " " args)) None :: rest).
Proof.
  rewrite <- join_empty_iff. unfold step. cbn [handler].
  destruct (decide (String.concat " " args = EmptyString)) as [Hq|Hq].
  - by rewrite handle_websearch_usage.
  - destruct answer as [response|e].
    + rewrite handle_websearch_ok by done. simpl.
      split; [done|]. split; [done|]. intros _. by eexists.
    + rewrite handle_websearch_error by done. simpl.
      split; [done|]. split; [done|]. intros _. by eexists.
Qed.

(** A single blank as the only argument: the backend is asked, and its
    answer is stored and sent. *)
Lemma websearch_usage_iff_witness :
  (step (Websearch alice [" "] (Return two_by_two) 3) initial_state).2 =
    [GenerateContent nlp_model (web_search_prompt " ") None;
     InsertOne Searches (search_record 42 " " "Hello, world" 3);
     ReplyText (search_results "Hello, world")].
Proof.
  destruct (websearch_usage_iff alice [" "] (Return two_by_two) 3
              initial_state) as (_ & _ & Hcall).
  destruct Hcall as [rest Hrest].
  - intros [Hargs|Hargs]; discriminate Hargs.
  - reflexivity.
Defined.

(** ** Calls to the backend *)

Lemma or_octet_stream_nonempty (guessed : option string) :
  or_octet_stream guessed ≠ EmptyString.
Proof.
  unfold or_octet_stream. destruct guessed as [m|]; [|done].
  by case_decide.
Qed.

(** X14.  At most one backend call per update, and none from the
    registration handlers: entry events and contact shares never reach the
    backend, and a text message, a file or a search calls it once at most
    (not at all for an unsupported attachment, a failed download or an empty
    query). *)
Theorem at_most_one_backend_call (ev : event) (s : state) :
  (length (filter (λ e, is_backend_call e = true) (step ev s).2) ≤ 1)%nat
  ∧ (conversational ev = false →
     filter (λ e, is_backend_call e = true) (step ev s).2 = []).
Proof.
  step_cases ev s; split; try done; simpl; lia.
Qed.

(** X15.  What the backend is asked.  Every backend call an update makes
    is either text only, and then goes to the text model, or carries an
    attachment, and then goes to the vision model under the fixed analysis
    prompt with a MIME type that is never empty: when the type cannot be
    guessed (nothing, or an empty string) "application/octet-stream" is
    sent. *)
Theorem backend_calls_are_well_formed (ev : event) (s : state) :
  Forall well_formed_call (step ev s).2
  ∧ or_octet_stream None = "application/octet-stream"
  ∧ or_octet_stream (Some EmptyString) = "application/octet-stream".
Proof.
  split; [|done].
  step_cases ev s; repeat constructor; simpl; try done;
    apply or_octet_stream_nonempty.
Qed.

(** An entry event makes no backend call. *)
Lemma at_most_one_backend_call_witness :
  filter (λ e, is_backend_call e = true)
    (step (Start alice 1 2) initial_state).2 = [].
Proof.
  apply (proj2 (at_most_one_backend_call (Start alice 1 2) initial_state)).
  reflexivity.
Defined.

(** ** Registration, as the entry event really runs *)

(** X16.  Uniqueness of registration.  After any sequence of updates
    delivered one after the other to a freshly started process, the store
    holds at most one record per chat identity.  The entry event of an
    identity without record appends exactly one record, with status
    "pending_contact" (one lookup, one insert, then the exception of the
    contact button, and no message); and any later entry event of that
    identity that comes before a contact share finds the pending record: it
    only sends the reminder to share the contact, and inserts nothing. *)
Theorem unique_registration (s0 : state) (evs : list event) :
  boot s0 →
  let s := final evs s0 in
  (∀ k : Z, (records_of k (users s) ≤ 1)%nat)
  ∧ (∀ (user : User) (now1 now2 : Z),
       find_one (user_id user) (users s) = None →
       let record := new_user user now1 now2 in
       let s1 := (step (Start user now1 now2) s).1 in
       users s1 = users s ++ [record]
       ∧ (step (Start user now1 now2) s).2 =
           [FindOne Users (user_id user);
            InsertOne Users record;
            Unhandled unexpected_request_contact]
       ∧ record !! "status" = Some (VStr "pending_contact")
       ∧ ∀ (between : list event) (user' : User) (now3 now4 : Z),
           Forall (λ ev, is_contact_share ev = false) between →
           user_id user' = user_id user →
           let s2 := final between s1 in
           step (Start user' now3 now4) s2 =
             (s2, [FindOne Users (user_id user);
                   ReplyText complete_registration])).
Proof.
  intros Hboot s.
  assert (consistent s) as [Hcache Hreg Huniq]
    by (by apply final_consistent, boot_consistent).
  split; [intros k; by apply unique_records_of|].
  intros user now1 now2 Hnone record s1.
  pose proof (unknown_not_cached s _ Hcache Hnone) as Hc.
  assert (step (Start user now1 now2) s =
            (set_collection Users (users s ++ [record]) s,
             [FindOne Users (user_id user);
              InsertOne Users record;
              Unhandled unexpected_request_contact])) as Hstep.
  { unfold step. cbn [handler]. by rewrite start_unknown. }
  subst s1. rewrite Hstep. cbn [fst snd].
  split; [done|]. split; [done|]. split; [apply new_user_status|].
  intros between user' now3 now4 Hquiet Hsame.
  set (s2 := final between (set_collection Users (users s ++ [record]) s)).
  assert (awaiting_contact (user_id user) s2) as (Hc2 & d & Hf2 & Hst2).
  { apply final_awaiting_contact; [done|]. split; [done|].
    exists record. split; [|by apply status_of_pending, new_user_status].
    simpl. rewrite find_one_snoc, Hnone.
    unfold matches. rewrite bool_decide_eq_true_2; [done|].
    apply new_user_chat_id. }
  unfold step. cbn [handler]. rewrite <- Hsame in *.
  by rewrite (start_pending _ _ _ _ d).
Qed.

(** Alice sends the entry event twice to an empty database, a text message
    in between: one record, and the second time the reminder. *)
Lemma unique_registration_witness :
  let s1 := (step (Start alice 1 2) initial_state).1 in
  let s2 := final [TextMessage alice "hi" (Return two_by_two) 3] s1 in
  users s1 = [new_user alice 1 2]
  ∧ step (Start alice 4 5) s2 =
      (s2, [FindOne Users 42; ReplyText complete_registration]).
Proof.
  destruct (unique_registration initial_state []) as [_ Hentry].
  { split; simpl; [reflexivity | constructor | constructor]. }
  destruct (Hentry alice 1 2) as (Husers & _ & _ & Hagain).
  { reflexivity. }
  intros s1 s2. split; [exact Husers|].
  apply (Hagain [TextMessage alice "hi" (Return two_by_two) 3] alice 4 5).
  - repeat constructor.
  - reflexivity.
Defined.
